(** * LastNWindowCollector: a shallow embedding of
      caffe2/operators/last_n_window_collector.cc

    The operator keeps the last [numToCollect_] rows it has been handed in a
    tensor used as a circular buffer (output LAST_N), together with a write
    cursor (output NEXT, an int32 scalar tensor) and an optional counter of
    the rows seen (output NUM_VISITED, an int64 tensor).  The three outputs
    are in place with the corresponding inputs, so they are the state that
    survives from one run of the operator to the next. *)

From Stdlib Require Import ZArith List Bool Lia Permutation.
Import ListNotations.
Local Open Scope Z_scope.

(** ** Machine integers

    The C++ code mixes [int32_t], [int64_t] (tensor dimensions) and [size_t].
    Values are integers of [Z]; every conversion to a C++ type is written out
    with the wrap-around of that type. *)

Definition wrap_unsigned (w z : Z) : Z := z mod 2 ^ w.
Definition wrap_signed (w z : Z) : Z := (z + 2 ^ (w - 1)) mod 2 ^ w - 2 ^ (w - 1).

Definition to_int32 : Z -> Z := wrap_signed 32.
Definition to_int64 : Z -> Z := wrap_signed 64.
Definition to_size_t : Z -> Z := wrap_unsigned 64.

(** ** Outcomes of a call

    [CAFFE_ENFORCE_*] throws; whatever was written before the throw stays
    written.  A copy outside of a buffer has no defined behaviour and is
    recorded as [MemoryFault]. *)

Inductive enforce_site : Type :=
| EnforceInputRank      (* CAFFE_ENFORCE_GE(input.ndim(), 1) *)
| EnforceOutputRank     (* CAFFE_ENFORCE_EQ(output->ndim(), input.ndim()) *)
| EnforceOutputDim (i : nat)  (* CAFFE_ENFORCE_EQ(output->dim(i), input.dim(i)) *)
| EnforceVisitedSize    (* CAFFE_ENFORCE_EQ(1, num_visited_tensor->size()) *)
| EnforceVisitedSign    (* CAFFE_ENFORCE_GE( *num_visited, 0) *)
| EnforceNextRank       (* CAFFE_ENFORCE_EQ(0, next->ndim()) *)
| EnforceNextRange.     (* CAFFE_ENFORCE_LT( *next_data, output->dim(0)) *)

Inductive outcome (X : Type) : Type :=
| Returned (x : X)
| Thrown (e : enforce_site)
| MemoryFault.
Arguments Returned {X} x.
Arguments Thrown {X} e.
Arguments MemoryFault {X}.

(** Calls that the claims speak about are logged as they are issued:
    [CopyItems n src dst] is a call of [context_.CopyItemsSameDevice] of [n]
    items from item offset [src] of the input to item offset [dst] of the
    output, [StoreNext v] is an assignment to [*next_data]. *)

Inductive event : Type :=
| CopyItems (n src_off dst_off : Z)
| StoreNext (v : Z).

(** ** Tensors *)

Definition numel (dims : list Z) : Z := fold_right Z.mul 1 dims.

(** The scalar tensors NEXT and NUM_VISITED: their shape and the value that
    [mutable_data<T>()[0]] denotes. *)
Record Scalar : Type := mkScalar { s_sizes : list Z; s_value : Z }.

Definition s_ndim (t : Scalar) : Z := Z.of_nat (length (s_sizes t)).
Definition s_size (t : Scalar) : Z := numel (s_sizes t).

Section Collector.

(** The item type that [input.meta()] describes. *)
Variable A : Type.

(** [static_cast<std::shared_ptr<std::vector<TensorCPU>>*>(
      output->raw_mutable_data(input.meta()))[0] != nullptr]
    looks at the raw storage of the output through a pointer type: it holds
    when the leading machine word of the storage is not zero.  What that word
    is depends on the representation of the items, so the test is a
    parameter of the model, a predicate on the stored items. *)
Variable head_nonnull : list A -> bool.

(** Storage that [ExtendTo] exposes is not initialised: [uninit i] is what
    happens to be at item index [i] then. *)
Variable uninit : nat -> A.

Record Tensor : Type := mkTensor { sizes : list Z; items : list A }.

Definition ndim (t : Tensor) : Z := Z.of_nat (length (sizes t)).
Definition dim (t : Tensor) (i : nat) : Z := nth i (sizes t) 0.
Definition size (t : Tensor) : Z := numel (sizes t).
Definition size_from_dim (k : nat) (t : Tensor) : Z := numel (skipn k (sizes t)).

(** The storage operations of the tensor class, which is not part of the
    operator's file, are modelled at the level of their contract:
    - [Resize dims] to a shape without items leaves no item;
    - [ExtendTo num] grows the leading dimension to [num], keeps the items
      that are there and exposes uninitialised ones behind them;
    - [CopyFrom src] takes over shape and items of [src];
    - [ReserveSpace] and [raw_mutable_data(meta)] for the type the tensor
      already has change nothing that can be observed. *)

Definition Resize (dims : list Z) (t : Tensor) : Tensor :=
  mkTensor dims (firstn (Z.to_nat (numel dims)) (items t)).

Definition ExtendTo (num : Z) (t : Tensor) : Tensor :=
  let dims := num :: tl (sizes t) in
  let have := length (items t) in
  mkTensor dims
    (items t ++ map uninit (seq have (Z.to_nat (numel dims) - have))).

Definition CopyFrom (src : Tensor) (t : Tensor) : Tensor := src.

(** [copy_items n src soff dst doff]: the destination after [n] items were
    copied from [src] at item offset [soff] to [dst] at item offset [doff];
    nothing is copied when [n] is zero, and there is no result when a
    range leaves its buffer. *)
Definition copy_items (n : Z) (src : list A) (soff : Z) (dst : list A) (doff : Z)
  : option (list A) :=
  if n =? 0 then Some dst
  else if (0 <=? soff) && (soff + n <=? Z.of_nat (length src))
          && (0 <=? doff) && (doff + n <=? Z.of_nat (length dst))
  then Some (firstn (Z.to_nat doff) dst
             ++ firstn (Z.to_nat n) (skipn (Z.to_nat soff) src)
             ++ skipn (Z.to_nat (doff + n)) dst)
  else None.

(** ** The blobs of the operator and the monad of [collect] *)

Record Blobs : Type := mkBlobs {
  LAST_N : Tensor;
  NEXT : Scalar;
  NUM_VISITED : option Scalar   (* [None]: OutputSize() <= NUM_VISITED *)
}.

Record run (X : Type) : Type := mkRun {
  result : outcome X;
  final : Blobs;
  issued : list event
}.
Arguments mkRun {X} result final issued.
Arguments result {X} r.
Arguments final {X} r.
Arguments issued {X} r.

Definition M (X : Type) : Type := Blobs -> run X.

Definition ret {X} (x : X) : M X := fun s => mkRun (Returned x) s [].

(** [emit l r]: the run [r] after the calls [l] were issued. *)
Definition emit {X} (l : list event) (r : run X) : run X :=
  mkRun (result r) (final r) (l ++ issued r).

Definition bind {X Y} (m : M X) (k : X -> M Y) : M Y :=
  fun s =>
    match m s with
    | mkRun (Returned x) s' l => emit l (k x s')
    | mkRun (Thrown e) s' l => mkRun (Thrown e) s' l
    | mkRun MemoryFault s' l => mkRun MemoryFault s' l
    end.

Notation "x <- m ;; k" := (bind m (fun x => k))
  (at level 61, m at next level, right associativity).
Notation "m ;; k" := (bind m (fun _ => k))
  (at level 61, right associativity).

Definition gets {X} (f : Blobs -> X) : M X := fun s => mkRun (Returned (f s)) s [].
Definition modify (f : Blobs -> Blobs) : M unit := fun s => mkRun (Returned tt) (f s) [].
Definition tell (ev : event) : M unit := fun s => mkRun (Returned tt) s [ev].
Definition enforce (b : bool) (e : enforce_site) : M unit :=
  fun s => mkRun (if b then Returned tt else Thrown e) s [].
Definition fault {X} : M X := fun s => mkRun MemoryFault s [].
Definition when (b : bool) (m : M unit) : M unit := if b then m else ret tt.

Fixpoint for_each (l : list nat) (body : nat -> M unit) : M unit :=
  match l with
  | [] => ret tt
  | i :: l' => body i ;; for_each l' body
  end.

Definition with_output (f : Tensor -> Tensor) : M unit :=
  modify (fun s => mkBlobs (f (LAST_N s)) (NEXT s) (NUM_VISITED s)).

Definition store_next (v : Z) : M unit :=
  tell (StoreNext v) ;;
  modify (fun s => mkBlobs (LAST_N s) (mkScalar (s_sizes (NEXT s)) v) (NUM_VISITED s)).

Definition store_visited (v : Z) : M unit :=
  modify (fun s =>
    mkBlobs (LAST_N s) (NEXT s)
      (option_map (fun t => mkScalar (s_sizes t) v) (NUM_VISITED s))).

Definition load_visited : M Z :=
  gets (fun s => match NUM_VISITED s with Some t => s_value t | None => 0 end).

(** [context_.CopyItemsSameDevice(input.meta(), n, input_data + src,
    output_data + dst)], offsets counted in items. *)
Definition CopyItemsSameDevice (n : Z) (input : Tensor) (src_off dst_off : Z)
  : M unit :=
  tell (CopyItems n src_off dst_off) ;;
  output <- gets LAST_N ;;
  match copy_items n (items input) src_off (items output) dst_off with
  | Some data => with_output (fun t => mkTensor (sizes t) data)
  | None => fault
  end.

(** ** [LastNWindowCollectorOp::collect] *)

(** [numToCollect_], an [int32_t] that the constructor enforces to be
    positive. *)
Variable numToCollect : Z.

Definition output_initialized (output : Tensor) : bool :=
  (0 <? size output) && head_nonnull (items output).

Definition collect (input : Tensor) : M bool :=
  output <- gets LAST_N ;;
  enforce (1 <=? ndim input) EnforceInputRank ;;
  let output_initialized := output_initialized output in
  when output_initialized
    (enforce (ndim output =? ndim input) EnforceOutputRank ;;
     for_each (seq 1 (length (sizes input) - 1))
       (fun i => enforce (dim output i =? dim input i) (EnforceOutputDim i))) ;;

  let num_entries := dim input 0 in

  num_visited_tensor <- gets NUM_VISITED ;;
  match num_visited_tensor with
  | Some t =>
      enforce (1 =? s_size t) EnforceVisitedSize ;;
      when (negb output_initialized) (store_visited 0) ;;
      num_visited <- load_visited ;;
      enforce (0 <=? num_visited) EnforceVisitedSign ;;
      store_visited (to_int64 (num_visited + num_entries))
  | None => ret tt
  end ;;

  when (negb output_initialized)
    (* dims = input.sizes(); dims[0] = 0; Resize; ReserveSpace *)
    (with_output (Resize (0 :: tl (sizes input)))) ;;

  if num_entries =? 0 then
    when (negb output_initialized) (with_output (CopyFrom input)) ;;
    ret true
  else
    let num_to_copy := Z.min (to_int32 num_entries) (to_int32 numToCollect) in
    output <- gets LAST_N ;;
    let output_batch_size := if output_initialized then dim output 0 else 0 in
    let output_num :=
      Z.min (to_size_t numToCollect)
            (to_size_t (output_batch_size + num_to_copy)) in
    when (to_size_t output_batch_size <? output_num)
      (with_output (ExtendTo (to_int64 output_num))) ;;

    next <- gets NEXT ;;
    enforce (0 =? s_ndim next) EnforceNextRank ;;
    when (negb output_initialized) (store_next 0) ;;
    next_data <- gets (fun s => s_value (NEXT s)) ;;
    output <- gets LAST_N ;;
    enforce (next_data <? dim output 0) EnforceNextRange ;;

    let block_size := size_from_dim 1 input in

    if numToCollect <? num_entries then
      (* just copy the last N rows *)
      CopyItemsSameDevice
        (to_size_t (num_to_copy * block_size))
        input
        (to_size_t ((num_entries - numToCollect) * block_size))
        0 ;;
      store_next 0 ;;
      ret true
    else
      let start := next_data in
      let first_chunk_size :=
        to_size_t
          (Z.min (to_size_t (to_int32 (num_to_copy + start)))
                 (to_size_t numToCollect)
           - to_size_t start) in
      CopyItemsSameDevice
        (to_size_t (first_chunk_size * block_size))
        input
        0
        (to_size_t (start * block_size)) ;;
      CopyItemsSameDevice
        (to_size_t (to_size_t (num_to_copy - first_chunk_size) * block_size))
        input
        (to_size_t (first_chunk_size * block_size))
        0 ;;
      store_next (Z.rem (to_int32 (start + num_to_copy)) numToCollect) ;;
      ret true.

(** [RunOnDevice]: with a MUTEX input the call of [collect] is made under a
    [std::lock_guard] on it; the lock has no part in what one call computes. *)
Definition RunOnDevice (with_mutex : bool) (input : Tensor) : M bool :=
  if with_mutex then collect input else collect input.

End Collector.

Arguments mkTensor {A} sizes items.
Arguments sizes {A} t.
Arguments items {A} t.
Arguments ndim {A} t.
Arguments dim {A} t i.
Arguments size {A} t.
Arguments size_from_dim {A} k t.
Arguments mkBlobs {A} LAST_N NEXT NUM_VISITED.
Arguments LAST_N {A} b.
Arguments NEXT {A} b.
Arguments NUM_VISITED {A} b.
Arguments mkRun {A X} result final issued.
Arguments result {A X} r.
Arguments final {A X} r.
Arguments issued {A X} r.
Arguments Resize {A} dims t.
Arguments ExtendTo {A} uninit num t.
Arguments CopyFrom {A} src t.
Arguments copy_items {A} n src soff dst doff.
Arguments output_initialized {A} head_nonnull output.
Arguments collect {A} head_nonnull uninit numToCollect input _.
Arguments RunOnDevice {A} head_nonnull uninit numToCollect with_mutex input _.
Arguments M A X : clear implicits.
Arguments ret {A X} x _.
Arguments bind {A X Y} m k _.
Arguments emit {A X} l r.

(** ** Views used by the statements *)

Section Views.

Context {A : Type}.

(** The rows (records) of a tensor: [n] consecutive blocks of [bs] items. *)
Fixpoint chunks (bs n : nat) (l : list A) : list (list A) :=
  match n with
  | O => []
  | S n' => firstn bs l :: chunks bs n' (skipn bs l)
  end.

Definition block_items (t : Tensor A) : nat := Z.to_nat (size_from_dim 1 t).
Definition num_rows (t : Tensor A) : nat := Z.to_nat (dim t 0).
Definition rows (t : Tensor A) : list (list A) :=
  chunks (block_items t) (num_rows t) (items t).

(** The last [n] elements of a list. *)
Definition lastn {X} (n : nat) (l : list X) : list X := skipn (length l - n) l.

(** [overwrite d src dst]: [dst] with the slots from [d] on replaced by the
    elements of [src]. *)
Definition overwrite {X} (d : nat) (src dst : list X) : list X :=
  firstn d dst ++ src ++ skipn (d + length src) dst.

(** A tensor of [n] rows of shape [inner] whose storage has the matching
    number of items. *)
Definition well_shaped (inner : list Z) (n : nat) (t : Tensor A) : Prop :=
  sizes t = Z.of_nat n :: inner
  /\ length (items t) = (n * Z.to_nat (numel inner))%nat.

(** What has been offered by a list of batches. *)
Definition offered (batches : list (Tensor A)) : list (list A) :=
  concat (map rows batches).
Definition offered_items (batches : list (Tensor A)) : list A :=
  concat (map items batches).

(** The number of rows offered since the last batch of more than [N] rows,
    that batch not counted. *)
Definition since_oversized (N : Z) (batches : list (Tensor A)) : Z :=
  fold_left (fun acc b => if N <? dim b 0 then 0 else acc + dim b 0) batches 0.

Variable head_nonnull : list A -> bool.
Variable uninit : nat -> A.
Variable numToCollect : Z.

(** Successive runs of the operator on a list of batches. *)
Fixpoint collect_all (batches : list (Tensor A)) : M A bool :=
  match batches with
  | [] => ret true
  | b :: rest =>
      bind (collect head_nonnull uninit numToCollect b)
        (fun _ => collect_all rest)
  end.

(** The blobs as the operator's documentation asks for them before the first
    run: an empty last-N buffer, a scalar cursor, and possibly a counter of
    one element. *)
Definition fresh (cursor : Z) (visited : option Z) : Blobs A :=
  mkBlobs (mkTensor [0] []) (mkScalar [] cursor)
          (option_map (mkScalar [1]) visited).

Definition window (s : Blobs A) : list (list A) := rows (LAST_N s).
Definition window_length (s : Blobs A) : Z := dim (LAST_N s) 0.
Definition cursor (s : Blobs A) : Z := s_value (NEXT s).
Definition visited (s : Blobs A) : option Z := option_map s_value (NUM_VISITED s).

(** What a call starts from: the buffer, the cursor and the count as they
    are when the buffer passes the test [output_initialized], and nothing
    otherwise, since the call then starts over. *)
Definition initialized (s : Blobs A) : bool :=
  output_initialized head_nonnull (LAST_N s).
Definition prior_window (s : Blobs A) : list (list A) :=
  if initialized s then window s else [].
Definition prior_cursor (s : Blobs A) : Z :=
  if initialized s then cursor s else 0.
Definition prior_visited (s : Blobs A) : Z :=
  if initialized s
  then match NUM_VISITED s with Some t => s_value t | None => 0 end
  else 0.

(** The ranges in which no conversion of [collect] wraps: the capacity and
    twice the capacity are [int32_t] values, the item count of a full buffer
    is an [int64_t]. *)
Definition capacity_ok (inner : list Z) : Prop :=
  0 < numToCollect <= 1073741824
  /\ 0 <= numel inner
  /\ numToCollect * numel inner < 9223372036854775808.

(** A batch of [k] rows of shape [inner] whose row count is an [int32_t]
    value and whose item count is an [int64_t] value. *)
Definition batch_ok (inner : list Z) (k : nat) (input : Tensor A) : Prop :=
  well_shaped inner k input
  /\ Z.of_nat k < 2147483648
  /\ Z.of_nat k * numel inner < 9223372036854775808.

(** The blobs a call can work with: a scalar cursor, a counter of one
    element if there is one and, when the buffer passes for initialised, a
    buffer of at most [numToCollect] rows of shape [inner] with the cursor
    inside of it and a count that is not negative. *)
Definition state_ok (inner : list Z) (s : Blobs A) : Prop :=
  s_sizes (NEXT s) = []
  /\ match NUM_VISITED s with Some t => s_size t = 1 | None => True end
  /\ (initialized s = true ->
      well_shaped inner (num_rows (LAST_N s)) (LAST_N s)
      /\ window_length s <= numToCollect
      /\ 0 <= cursor s <= window_length s
      /\ cursor s < numToCollect
      /\ 0 <= prior_visited s).

(** The test on the leading word of the buffer takes no storage made of
    items of [pool] for uninitialised. *)
Definition recognised (pool : list A) : Prop :=
  forall l, l <> [] -> incl l pool -> head_nonnull l = true.

(** The blobs after the batches [batches] were collected, as the sequel
    tracks them: the buffer holds the last rows offered, unrolled from the
    cursor on in the order of their arrival; while it is not full the cursor
    is the number of its rows; the counter, once a call has set it, is the
    number of rows offered. *)
Definition tracks (inner : list Z) (batches : list (Tensor A)) (s : Blobs A)
  : Prop :=
  let hist := offered batches in
  let n := Nat.min (Z.to_nat numToCollect) (length hist) in
  let c := Z.to_nat (cursor s) in
  s_sizes (NEXT s) = []
  /\ match NUM_VISITED s with
     | Some t =>
         s_size t = 1
         /\ (batches <> [] -> s_value t = Z.of_nat (length hist))
     | None => True
     end
  /\ (hist = [] ->
        (exists rest, sizes (LAST_N s) = 0 :: rest)
        /\ since_oversized numToCollect batches = 0)
  /\ (hist <> [] ->
        well_shaped inner n (LAST_N s)
        /\ 0 <= cursor s < numToCollect
        /\ (c <= n)%nat
        /\ ((n < Z.to_nat numToCollect)%nat -> c = n)
        /\ skipn c (window s) ++ firstn c (window s) = lastn n hist
        /\ cursor s = since_oversized numToCollect batches mod numToCollect).

End Views.

(** ** Rows of [int64_t] items

    With items of eight bytes the leading machine word of the buffer is its
    first item, and the test on it holds when that item is not zero. *)

Definition int64_head_nonnull (l : list Z) : bool :=
  match l with
  | x :: _ => negb (x =? 0)
  | [] => false
  end.

(** Storage that reads as zero until it is written. *)
Definition zeroed : nat -> Z := fun _ => 0.

(** A batch of scalar rows, and a batch of [n] rows without items. *)
Definition vector (l : list Z) : Tensor Z := mkTensor [Z.of_nat (length l)] l.
Definition hollow (n : Z) : Tensor Z := mkTensor [n; 0] [].

(** The operator with [num_to_collect = 6]. *)
Definition collect6 : Tensor Z -> M Z bool := collect int64_head_nonnull zeroed 6.
Definition collect_all6 : list (Tensor Z) -> M Z bool :=
  collect_all int64_head_nonnull zeroed 6.

(** The batches of the operator's documentation. *)
Definition documented : list (Tensor Z) :=
  [vector [1; 2; 3; 4]; vector [5; 6; 7]; vector [8; 9; 10; 11]].

(** A batch of more rows than the capacity, followed by a small one. *)
Definition oversized_first : list (Tensor Z) :=
  [vector [1; 2; 3; 4; 5; 6; 7; 8; 9; 10; 11]; vector [12; 13]].

(** Items that are not zero. *)
Definition nonzero_items : list Z := [1; 2; 3; 4; 5; 6; 7; 8; 9; 10; 11; 12; 13].

(** The blobs before the first call, with a counter, and after the first
    batch of the documentation. *)
Definition blank : Blobs Z := fresh 0 (Some 0).
Definition after_first : Blobs Z :=
  mkBlobs (vector [1; 2; 3; 4]) (mkScalar [] 4) (Some (mkScalar [1] 4)).

(** Blank blobs whose cursor is a tensor of one dimension instead of a
    scalar. *)
Definition blank_with_cursor_vector : Blobs Z :=
  mkBlobs (mkTensor [0] []) (mkScalar [1] 0) (Some (mkScalar [1] 0)).

(** Blobs whose cursor is ahead of the two rows of the buffer. *)
Definition stale_cursor : Blobs Z :=
  mkBlobs (vector [1; 2]) (mkScalar [] 3) (Some (mkScalar [1] 2)).

(** Blobs whose buffer starts with a zero, with the cursor and the count
    that four rows leave. *)
Definition zero_headed : Blobs Z :=
  mkBlobs (vector [0; 2; 3; 4]) (mkScalar [] 4) (Some (mkScalar [1] 4)).

(** A batch of two rows of two items. *)
Definition pairs : Tensor Z := mkTensor [2; 2] [5; 6; 6; 7].

(** The rows of the documentation in batches of two, four and five rows. *)
Definition documented_regrouped : list (Tensor Z) :=
  [vector [1; 2]; vector [3; 4; 5; 6]; vector [7; 8; 9; 10; 11]].

(** A full buffer whose cursor is not one of its slots. *)
Definition full_with_stale_cursor : Blobs Z :=
  mkBlobs (vector [1; 2; 3; 4; 5; 6]) (mkScalar [] 6) (Some (mkScalar [1] 6)).

(** Storage that reads as seven until it is written. *)
Definition sevens : nat -> Z := fun _ => 7.

(** * Properties *)

(** ** Conversions that do not wrap *)

Lemma to_int32_small (z : Z) :
  -2147483648 <= z < 2147483648 -> to_int32 z = z.
Proof.
  intros Hz. unfold to_int32, wrap_signed.
  change (2 ^ (32 - 1)) with 2147483648. change (2 ^ 32) with 4294967296.
  rewrite Z.mod_small; lia.
Qed.

Lemma to_int64_small (z : Z) :
  -9223372036854775808 <= z < 9223372036854775808 -> to_int64 z = z.
Proof.
  intros Hz. unfold to_int64, wrap_signed.
  change (2 ^ (64 - 1)) with 9223372036854775808.
  change (2 ^ 64) with 18446744073709551616.
  rewrite Z.mod_small; lia.
Qed.

Lemma to_size_t_small (z : Z) :
  0 <= z < 18446744073709551616 -> to_size_t z = z.
Proof.
  intros Hz. unfold to_size_t, wrap_unsigned.
  change (2 ^ 64) with 18446744073709551616.
  apply Z.mod_small; lia.
Qed.

(** ** Rows of a flat storage *)

Section Chunks.

Context {A : Type}.
Implicit Types (l : list A) (bs n k : nat).

Lemma chunks_length bs n l : length (chunks bs n l) = n.
Proof. revert l; induction n; intros; simpl; auto. Qed.

Lemma chunks_app bs m n l1 l2 :
  length l1 = (m * bs)%nat ->
  chunks bs (m + n) (l1 ++ l2) = chunks bs m l1 ++ chunks bs n l2.
Proof.
  revert l1; induction m as [|m IH]; intros l1 Hl; simpl in *.
  - apply length_zero_iff_nil in Hl. now subst.
  - rewrite firstn_app, skipn_app.
    replace (bs - length l1)%nat with O by lia.
    simpl. rewrite app_nil_r. f_equal.
    rewrite <- IH; [reflexivity|]. rewrite length_skipn. lia.
Qed.

Lemma chunks_firstn bs n k l :
  (k <= n)%nat -> firstn k (chunks bs n l) = chunks bs k l.
Proof.
  revert k l; induction n as [|n IH]; intros [|k] l Hk; simpl; try lia; auto.
  f_equal. apply IH. lia.
Qed.

Lemma chunks_skipn bs n k l :
  (k <= n)%nat -> skipn k (chunks bs n l) = chunks bs (n - k) (skipn (k * bs) l).
Proof.
  revert k l; induction n as [|n IH]; intros [|k] l Hk; simpl; try lia; auto.
  rewrite IH by lia. now rewrite skipn_skipn, Nat.add_comm.
Qed.

Lemma chunks_take bs k l : chunks bs k (firstn (k * bs) l) = chunks bs k l.
Proof.
  revert l; induction k as [|k IH]; intros l; simpl; auto.
  rewrite firstn_firstn. replace (Nat.min bs (bs + k * bs)) with bs by lia.
  f_equal. rewrite skipn_firstn_comm.
  replace (bs + k * bs - bs)%nat with (k * bs)%nat by lia. apply IH.
Qed.

Lemma chunks_concat bs n l :
  length l = (n * bs)%nat -> concat (chunks bs n l) = l.
Proof.
  revert l; induction n as [|n IH]; intros l Hl; simpl in *.
  - apply length_zero_iff_nil in Hl. now subst.
  - rewrite IH; [apply firstn_skipn|]. rewrite length_skipn. lia.
Qed.

(** Copying [k] whole rows from row [a] of [src] to row [d] of [dst], seen at
    the level of items and at the level of rows. *)
Lemma chunks_overwrite bs m ms d k a (dst src : list A) :
  length dst = (m * bs)%nat -> length src = (ms * bs)%nat ->
  (d + k <= m)%nat -> (a + k <= ms)%nat ->
  chunks bs m (firstn (d * bs) dst
               ++ firstn (k * bs) (skipn (a * bs) src)
               ++ skipn ((d + k) * bs) dst)
  = firstn d (chunks bs m dst)
    ++ firstn k (skipn a (chunks bs ms src))
    ++ skipn (d + k) (chunks bs m dst).
Proof.
  intros Hdst Hsrc Hd Ha.
  replace m with (d + (k + (m - (d + k))))%nat at 1 by lia.
  assert (Hmul : forall x y, (x <= y)%nat -> (x * bs <= y * bs)%nat)
    by (intros; apply Nat.mul_le_mono_r; assumption).
  rewrite chunks_app.
  2:{ rewrite length_firstn, Hdst. apply Nat.min_l, Hmul. lia. }
  rewrite chunks_app.
  2:{ rewrite length_firstn, length_skipn, Hsrc. apply Nat.min_l.
      rewrite <- Nat.mul_sub_distr_r. apply Hmul. lia. }
  rewrite !chunks_take.
  rewrite (chunks_firstn bs m d) by lia.
  rewrite (chunks_skipn bs ms a) by lia.
  rewrite (chunks_firstn bs (ms - a) k) by lia.
  rewrite (chunks_skipn bs m (d + k)) by lia.
  reflexivity.
Qed.

End Chunks.

(** ** Stepping through the monad *)

Section Steps.

Context {A : Type}.
Implicit Types (s : Blobs A) (e : enforce_site) (ev : event).

Lemma emit_nil {X} (r : run A X) : emit [] r = r.
Proof. now destruct r. Qed.

Lemma emit_emit {X} (l l' : list event) (r : run A X) :
  emit l (emit l' r) = emit (l ++ l') r.
Proof. unfold emit; simpl. now rewrite app_assoc. Qed.

Lemma bind_ret {X Y} (x : X) (k : X -> M A Y) s : bind (ret x) k s = k x s.
Proof. unfold bind, ret. apply emit_nil. Qed.

Lemma bind_gets {X Y} (f : Blobs A -> X) (k : X -> M A Y) s :
  bind (gets A f) k s = k (f s) s.
Proof. unfold bind, gets. apply emit_nil. Qed.

Lemma bind_modify {Y} (f : Blobs A -> Blobs A) (k : unit -> M A Y) s :
  bind (modify A f) k s = k tt (f s).
Proof. unfold bind, modify. apply emit_nil. Qed.

Lemma bind_with_output {Y} (f : Tensor A -> Tensor A) (k : unit -> M A Y) s :
  bind (with_output A f) k s
  = k tt (mkBlobs (f (LAST_N s)) (NEXT s) (NUM_VISITED s)).
Proof. unfold with_output. apply bind_modify. Qed.

Lemma bind_tell {Y} ev (k : unit -> M A Y) s :
  bind (tell A ev) k s = emit [ev] (k tt s).
Proof. reflexivity. Qed.

Lemma bind_enforce {Y} (b : bool) e (k : unit -> M A Y) s :
  bind (enforce A b e) k s = if b then k tt s else mkRun (Thrown e) s [].
Proof. unfold bind, enforce. destruct b; [apply emit_nil | reflexivity]. Qed.

Lemma bind_returned {X Y} (m : M A X) (k : X -> M A Y) s x s' l :
  m s = mkRun (Returned x) s' l -> bind m k s = emit l (k x s').
Proof. intros H. unfold bind. now rewrite H. Qed.

Lemma bind_bind {X Y W} (m : M A X) (f : X -> M A Y) (g : Y -> M A W) s :
  bind (bind m f) g s = bind m (fun x => bind (f x) g) s.
Proof.
  unfold bind. destruct (m s) as [[x| |] s1 l1]; try reflexivity.
  destruct (f x s1) as [[y| |] s2 l2]; unfold emit; simpl; try reflexivity.
  destruct (g y s2) as [r3 s3 l3]; simpl. now rewrite app_assoc.
Qed.

Lemma bind_ext {X Y} (m : M A X) (k1 k2 : X -> M A Y) s :
  (forall x s', k1 x s' = k2 x s') -> bind m k1 s = bind m k2 s.
Proof.
  intros H. unfold bind. destruct (m s) as [[x| |] s1 l1]; try reflexivity.
  now rewrite H.
Qed.

Lemma bind_when {Y} (b : bool) (m : M A unit) (k : unit -> M A Y) s :
  bind (when A b m) k s = if b then bind m k s else k tt s.
Proof. destruct b; [reflexivity | apply bind_ret]. Qed.

Lemma bind_store_next {Y} (v : Z) (k : unit -> M A Y) s :
  bind (store_next A v) k s
  = emit [StoreNext v]
      (k tt (mkBlobs (LAST_N s) (mkScalar (s_sizes (NEXT s)) v) (NUM_VISITED s))).
Proof. unfold store_next. now rewrite bind_bind, bind_tell, bind_modify. Qed.

Lemma bind_store_visited {Y} (v : Z) (k : unit -> M A Y) s :
  bind (store_visited A v) k s
  = k tt (mkBlobs (LAST_N s) (NEXT s)
            (option_map (fun t => mkScalar (s_sizes t) v) (NUM_VISITED s))).
Proof. unfold store_visited. apply bind_modify. Qed.

Lemma bind_load_visited {Y} (k : Z -> M A Y) s :
  bind (load_visited A) k s
  = k (match NUM_VISITED s with Some t => s_value t | None => 0 end) s.
Proof. unfold load_visited. apply bind_gets. Qed.

Lemma bind_CopyItemsSameDevice {Y} n (input : Tensor A) soff doff
      (k : unit -> M A Y) s :
  bind (CopyItemsSameDevice A n input soff doff) k s
  = emit [CopyItems n soff doff]
      match copy_items n (items input) soff (items (LAST_N s)) doff with
      | Some data =>
          k tt (mkBlobs (mkTensor (sizes (LAST_N s)) data) (NEXT s) (NUM_VISITED s))
      | None => mkRun MemoryFault s []
      end.
Proof.
  unfold CopyItemsSameDevice.
  rewrite bind_bind, bind_tell, bind_bind, bind_gets.
  destruct (copy_items _ _ _ _ _); [now rewrite bind_with_output | reflexivity].
Qed.

End Steps.

Ltac step :=
  first [ rewrite bind_ret | rewrite bind_gets | rewrite bind_with_output
        | rewrite bind_store_next | rewrite bind_store_visited
        | rewrite bind_load_visited | rewrite bind_CopyItemsSameDevice
        | rewrite bind_enforce | rewrite bind_when | rewrite bind_bind ];
  cbv beta.

(** ** Shapes *)

Section Shapes.

Context {A : Type}.
Implicit Types (t : Tensor A) (inner : list Z).

Lemma well_shaped_ndim inner n t :
  well_shaped inner n t -> ndim t = Z.of_nat (S (length inner)).
Proof. intros [Hs _]. unfold ndim. now rewrite Hs. Qed.

Lemma well_shaped_dim0 inner n t : well_shaped inner n t -> dim t 0 = Z.of_nat n.
Proof. intros [Hs _]. unfold dim. now rewrite Hs. Qed.

Lemma well_shaped_num_rows inner n t : well_shaped inner n t -> num_rows t = n.
Proof.
  intros H. unfold num_rows. rewrite (well_shaped_dim0 _ _ _ H). apply Nat2Z.id.
Qed.

Lemma well_shaped_block inner n t :
  well_shaped inner n t -> size_from_dim 1 t = numel inner.
Proof. intros [Hs _]. unfold size_from_dim. now rewrite Hs. Qed.

Lemma well_shaped_block_items inner n t :
  well_shaped inner n t -> block_items t = Z.to_nat (numel inner).
Proof. intros H. unfold block_items. now rewrite (well_shaped_block _ _ _ H). Qed.

Lemma well_shaped_size inner n t :
  well_shaped inner n t -> size t = Z.of_nat n * numel inner.
Proof. intros [Hs _]. unfold size. now rewrite Hs. Qed.

Lemma well_shaped_rows inner n t :
  well_shaped inner n t -> rows t = chunks (Z.to_nat (numel inner)) n (items t).
Proof.
  intros H. unfold rows.
  now rewrite (well_shaped_block_items _ _ _ H), (well_shaped_num_rows _ _ _ H).
Qed.

Lemma well_shaped_rows_length inner n t :
  well_shaped inner n t -> length (rows t) = n.
Proof. intros H. rewrite (well_shaped_rows _ _ _ H). apply chunks_length. Qed.

Lemma well_shaped_items inner n t :
  well_shaped inner n t -> concat (rows t) = items t.
Proof.
  intros H. rewrite (well_shaped_rows _ _ _ H). apply chunks_concat, H.
Qed.

(** The loop over the trailing dimensions passes when they agree. *)
Lemma for_each_enforce_true (l : list nat) (f : nat -> bool)
      (e : nat -> enforce_site) (s : Blobs A) :
  (forall i, In i l -> f i = true) ->
  for_each A l (fun i => enforce A (f i) (e i)) s = mkRun (Returned tt) s [].
Proof.
  induction l as [|i l IH]; intros Hf; simpl; [reflexivity|].
  rewrite bind_enforce, (Hf i) by now left.
  apply IH. intros j Hj. apply Hf. now right.
Qed.

Lemma same_trailing_dims inner a b (o i : Tensor A) (s : Blobs A) :
  sizes o = a :: inner -> sizes i = b :: inner ->
  for_each A (seq 1 (length (sizes i) - 1))
    (fun j => enforce A (dim o j =? dim i j) (EnforceOutputDim j)) s
  = mkRun (Returned tt) s [].
Proof.
  intros Ho Hi. apply for_each_enforce_true. intros j Hj.
  apply in_seq in Hj. unfold dim. rewrite Ho, Hi.
  destruct j as [|j]; [lia|]. simpl. apply Z.eqb_refl.
Qed.

(** Whole rows copied by [copy_items]. *)
Lemma copy_items_rows (bsz : Z) (m ms d k a : nat) (dst src : list A) :
  0 <= bsz ->
  length dst = (m * Z.to_nat bsz)%nat -> length src = (ms * Z.to_nat bsz)%nat ->
  (d + k <= m)%nat -> (a + k <= ms)%nat ->
  exists data,
    copy_items (Z.of_nat k * bsz) src (Z.of_nat a * bsz) dst (Z.of_nat d * bsz)
    = Some data
    /\ length data = (m * Z.to_nat bsz)%nat
    /\ chunks (Z.to_nat bsz) m data
       = overwrite d (firstn k (skipn a (chunks (Z.to_nat bsz) ms src)))
           (chunks (Z.to_nat bsz) m dst).
Proof.
  intros Hb Hdst Hsrc Hd Ha.
  set (bs := Z.to_nat bsz) in *.
  assert (Hbs : bsz = Z.of_nat bs) by (unfold bs; lia).
  assert (Hmul : forall x y, (x <= y)%nat -> (x * bs <= y * bs)%nat)
    by (intros; apply Nat.mul_le_mono_r; assumption).
  pose proof (Hmul _ _ Hd) as Hd'. pose proof (Hmul _ _ Ha) as Ha'.
  rewrite Nat.mul_add_distr_r in Hd', Ha'.
  exists (firstn (d * bs) dst ++ firstn (k * bs) (skipn (a * bs) src)
          ++ skipn ((d + k) * bs) dst).
  assert (Hlen1 : length (firstn (k * bs) (skipn (a * bs) src)) = (k * bs)%nat).
  { rewrite length_firstn, length_skipn, Hsrc. lia. }
  split; [|split].
  - unfold copy_items. destruct (Z.eqb_spec (Z.of_nat k * bsz) 0) as [Hz|Hz].
    + assert (Hkb : (k * bs = 0)%nat) by lia.
      rewrite Hkb, Nat.mul_add_distr_r, Hkb, Nat.add_0_r. simpl.
      now rewrite firstn_skipn.
    + replace ((0 <=? Z.of_nat a * bsz)
               && (Z.of_nat a * bsz + Z.of_nat k * bsz <=? Z.of_nat (length src))
               && (0 <=? Z.of_nat d * bsz)
               && (Z.of_nat d * bsz + Z.of_nat k * bsz <=? Z.of_nat (length dst)))
        with true.
      2:{ symmetry. rewrite !andb_true_iff, !Z.leb_le, Hsrc, Hdst, Hbs. lia. }
      rewrite Hbs, <- !Nat2Z.inj_mul, <- Nat2Z.inj_add, !Nat2Z.id.
      now rewrite Nat.mul_add_distr_r.
  - rewrite !length_app, Hlen1, length_firstn, length_skipn, Hdst. lia.
  - unfold overwrite. rewrite length_firstn, length_skipn, !chunks_length.
    replace (Nat.min k (ms - a)) with k by lia.
    apply chunks_overwrite; assumption.
Qed.

End Shapes.

(** ** Slots of a list that was written *)

Section Slots.

Context {X : Type}.
Implicit Types (src dst : list X) (d i : nat).

Lemma overwrite_length d src dst :
  (d + length src <= length dst)%nat ->
  length (overwrite d src dst) = length dst.
Proof.
  intros H. unfold overwrite.
  rewrite !length_app, length_firstn, length_skipn. lia.
Qed.

Lemma nth_error_overwrite_in d src dst i :
  (d + length src <= length dst)%nat ->
  (d <= i < d + length src)%nat ->
  nth_error (overwrite d src dst) i = nth_error src (i - d).
Proof.
  intros H Hi. unfold overwrite.
  rewrite nth_error_app2 by (rewrite length_firstn; lia).
  rewrite length_firstn. replace (Nat.min d (length dst)) with d by lia.
  apply nth_error_app1. lia.
Qed.

Lemma nth_error_overwrite_out d src dst i :
  (d + length src <= length dst)%nat ->
  (i < d \/ d + length src <= i)%nat ->
  nth_error (overwrite d src dst) i = nth_error dst i.
Proof.
  intros H [Hi|Hi]; unfold overwrite.
  - rewrite nth_error_app1 by (rewrite length_firstn; lia).
    rewrite nth_error_firstn.
    destruct (Nat.ltb_spec i d); [reflexivity | lia].
  - rewrite nth_error_app2 by (rewrite length_firstn; lia).
    rewrite length_firstn. replace (Nat.min d (length dst)) with d by lia.
    rewrite nth_error_app2 by lia. rewrite nth_error_skipn. f_equal. lia.
Qed.

End Slots.

(** ** One call of [collect]

    The call is followed block by block: the checks on the input, the
    bookkeeping of NUM_VISITED, the reset of a buffer that does not pass for
    initialised, the growth of the buffer, the checks on NEXT, and then one of
    the three ways out. *)

Section OneCall.
Context {A : Type}.
Variable head_nonnull : list A -> bool.
Variable uninit : nat -> A.
Variable N : Z.
Variable inner : list Z.
Hypothesis Hcap : capacity_ok N inner.
Variables (st : Blobs A) (input : Tensor A) (k : nat).
Hypothesis Hst : state_ok head_nonnull N inner st.
Hypothesis Hin : batch_ok inner k input.
Hypothesis Hvis : prior_visited head_nonnull st + Z.of_nat k < 9223372036854775808.

Let i := output_initialized head_nonnull (LAST_N st).
Let bsz := numel inner.
Let bs := Z.to_nat bsz.
Let w0 := prior_window head_nonnull st.
Let L0 := length w0.
Let c0 := prior_cursor head_nonnull st.
Let v0 := prior_visited head_nonnull st.
Let Nn := Z.to_nat N.
Let nv' := option_map (fun t => mkScalar (s_sizes t) (v0 + Z.of_nat k)) (NUM_VISITED st).
Let base := if i then LAST_N st else mkTensor (0 :: inner) [].

Lemma checks_pass {Y} (K : unit -> M A Y) :
  bind (enforce A (1 <=? ndim input) EnforceInputRank)
    (fun _ =>
       bind (when A i
               (bind (enforce A (ndim (LAST_N st) =? ndim input) EnforceOutputRank)
                  (fun _ =>
                     for_each A (seq 1 (length (sizes input) - 1))
                       (fun j => enforce A (dim (LAST_N st) j =? dim input j)
                                   (EnforceOutputDim j)))))
            K) st
  = K tt st.
Proof.
  destruct Hin as (Hws & _). destruct Hst as (_ & _ & Hinit).
  rewrite bind_enforce, (well_shaped_ndim _ _ _ Hws).
  replace (1 <=? _) with true by (symmetry; apply Z.leb_le; lia).
  rewrite bind_when. fold (initialized head_nonnull st) in i. 
  destruct (initialized head_nonnull st) eqn:Hi; subst i; [|reflexivity].
  destruct (Hinit eq_refl) as (Hwo & _).
  rewrite bind_bind, bind_enforce, (well_shaped_ndim _ _ _ Hwo), Z.eqb_refl.
  now rewrite (bind_returned _ _ _ _ _ _
                 (same_trailing_dims _ _ _ _ _ _ (proj1 Hwo) (proj1 Hws))), emit_nil.
Qed.

Lemma visited_pass {Y} (K : unit -> M A Y) :
  bind (gets A NUM_VISITED)
    (fun nvt =>
       bind match nvt with
            | Some t =>
                bind (enforce A (1 =? s_size t) EnforceVisitedSize)
                  (fun _ =>
                     bind (when A (negb i) (store_visited A 0))
                       (fun _ =>
                          bind (load_visited A)
                            (fun num_visited =>
                               bind (enforce A (0 <=? num_visited) EnforceVisitedSign)
                                 (fun _ =>
                                    store_visited A
                                      (to_int64 (num_visited + Z.of_nat k))))))
            | None => ret tt
            end K) st
  = K tt (mkBlobs (LAST_N st) (NEXT st) nv').
Proof.
  destruct Hst as (_ & Hnv & Hinit).
  rewrite bind_gets. subst nv' v0. unfold prior_visited in *.
  fold (initialized head_nonnull st) in i. 
  destruct st as [o nx [t|]]; cbn [NUM_VISITED LAST_N NEXT option_map] in *.
  2:{ now rewrite bind_ret. }
  rewrite bind_bind, bind_enforce, Hnv. cbn [Z.eqb Pos.eqb].
  rewrite bind_bind, bind_when.
  destruct (initialized head_nonnull _) eqn:Hi; subst i; cbn [negb].
  - destruct (Hinit eq_refl) as (_ & _ & _ & _ & Hv).
    rewrite bind_bind, bind_load_visited; cbn [NUM_VISITED].
    rewrite bind_bind, bind_enforce.
    replace (0 <=? s_value t) with true by (symmetry; apply Z.leb_le; lia).
    rewrite to_int64_small by lia.
    unfold store_visited, modify, bind. cbn. now rewrite emit_nil.
  - rewrite bind_store_visited; cbn [NUM_VISITED LAST_N NEXT option_map].
    rewrite bind_bind, bind_load_visited; cbn [NUM_VISITED s_value].
    rewrite bind_bind, bind_enforce. cbn [Z.leb Z.compare].
    rewrite to_int64_small by lia.
    unfold store_visited, modify, bind. cbn. now rewrite emit_nil.
Qed.

Lemma base_shaped : well_shaped inner L0 base.
Proof.
  destruct Hst as (_ & _ & Hinit).
  subst base L0 w0 i. unfold prior_window, initialized in *.
  destruct (output_initialized head_nonnull (LAST_N st)).
  - destruct (Hinit eq_refl) as (Hwo & _). unfold window.
    now rewrite (well_shaped_rows_length _ _ _ Hwo).
  - split; reflexivity.
Qed.

Lemma base_rows : rows base = w0.
Proof.
  subst base w0 i. unfold prior_window, initialized.
  now destruct (output_initialized head_nonnull (LAST_N st)).
Qed.

Lemma base_dim0 :
  (if i then dim (LAST_N st) 0 else 0) = Z.of_nat L0.
Proof.
  pose proof base_shaped as Hb. apply well_shaped_dim0 in Hb.
  subst base. now destruct i.
Qed.

Lemma prior_rows_bound : Z.of_nat L0 <= N.
Proof.
  destruct Hst as (_ & _ & Hinit). destruct Hcap as (HN & _).
  rewrite <- base_dim0. subst i. fold (initialized head_nonnull st).
  destruct (initialized head_nonnull st) eqn:Hi; [|lia].
  now destruct (Hinit eq_refl) as (_ & HL & _).
Qed.

Lemma prior_cursor_bound : 0 <= c0 <= Z.of_nat L0 /\ c0 < N.
Proof.
  destruct Hst as (_ & _ & Hinit). destruct Hcap as (HN & _).
  rewrite <- base_dim0. subst c0 i. unfold prior_cursor.
  fold (initialized head_nonnull st).
  destruct (initialized head_nonnull st) eqn:Hi; [|lia].
  destruct (Hinit eq_refl) as (_ & _ & Hc & HcN & _). unfold window_length in Hc.
  lia.
Qed.

Lemma resize_pass {Y} (K : unit -> M A Y) :
  bind (when A (negb i) (with_output A (Resize (0 :: tl (sizes input))))) K
       (mkBlobs (LAST_N st) (NEXT st) nv')
  = K tt (mkBlobs base (NEXT st) nv').
Proof.
  destruct Hin as ((Hs & _) & _).
  rewrite bind_when. subst base. destruct i; cbn [negb]; [reflexivity|].
  rewrite bind_with_output. cbn [LAST_N NEXT NUM_VISITED].
  unfold Resize. rewrite Hs. reflexivity.
Qed.

Let L' := Nat.min Nn (L0 + Nat.min k Nn).
Let grownT :=
  mkTensor (Z.of_nat L' :: inner)
    (items base ++ map uninit (seq (L0 * bs) ((L' - L0) * bs))).

Lemma grown_shaped : well_shaped inner L' grownT.
Proof.
  destruct base_shaped as (_ & Hlen). split; [reflexivity|].
  pose proof prior_rows_bound as HL0.
  subst grownT. cbn [items]. rewrite length_app, length_map, length_seq, Hlen.
  fold bsz bs. rewrite <- Nat.mul_add_distr_r. f_equal. subst L' Nn. lia.
Qed.

Lemma grown_rows : firstn L0 (rows grownT) = w0.
Proof.
  rewrite (well_shaped_rows _ _ _ grown_shaped), <- base_rows.
  rewrite (well_shaped_rows _ _ _ base_shaped).
  destruct base_shaped as (_ & Hlen). fold bsz bs in Hlen |- *.
  pose proof prior_rows_bound as HL0.
  rewrite chunks_firstn by (subst L' Nn; lia).
  subst grownT. cbn [items]. rewrite <- chunks_take, firstn_app.
  rewrite Hlen, Nat.sub_diag, firstn_O, app_nil_r, <- Hlen, firstn_all.
  reflexivity.
Qed.

Lemma extend_pass {Y} (K : unit -> M A Y) :
  (0 < k)%nat ->
  bind (gets A LAST_N)
    (fun output =>
       bind (when A
               (to_size_t (if i then dim output 0 else 0) <?
                Z.min (to_size_t N)
                  (to_size_t ((if i then dim output 0 else 0)
                              + Z.min (to_int32 (Z.of_nat k)) (to_int32 N))))
               (with_output A
                  (ExtendTo uninit
                     (to_int64
                        (Z.min (to_size_t N)
                           (to_size_t ((if i then dim output 0 else 0)
                                       + Z.min (to_int32 (Z.of_nat k))
                                               (to_int32 N))))))))
            K)
    (mkBlobs base (NEXT st) nv')
  = K tt (mkBlobs grownT (NEXT st) nv').
Proof.
  intros Hk.
  destruct Hcap as (HN & Hbsz & Hfit). destruct Hin as (Hws & Hk31 & Hk63).
  pose proof prior_rows_bound as HL0.
  rewrite bind_gets. cbn [LAST_N].
  assert (Hd : (if i then dim base 0 else 0) = Z.of_nat L0).
  { rewrite <- base_dim0. subst base. now destruct i. }
  rewrite Hd, !to_int32_small, !to_size_t_small by lia.
  rewrite ?to_size_t_small, to_int64_small by lia.
  assert (HL' : Z.min N (Z.of_nat L0 + Z.min (Z.of_nat k) N) = Z.of_nat L')
    by (subst L' Nn; lia).
  rewrite HL', bind_when.
  destruct base_shaped as (Hbs & Hblen). fold bsz bs in Hblen.
  destruct (Z.ltb_spec (Z.of_nat L0) (Z.of_nat L')) as [Hlt|Hge].
  - rewrite bind_with_output. cbn [LAST_N NEXT NUM_VISITED].
    do 2 f_equal. unfold ExtendTo, grownT. rewrite Hbs. cbn [tl].
    do 3 f_equal. rewrite Hblen. cbn [numel fold_right]. fold (numel inner). fold bsz.
    f_equal. replace bsz with (Z.of_nat bs) by (subst bs; lia).
    rewrite <- Nat2Z.inj_mul, Nat2Z.id, Nat.mul_sub_distr_r. reflexivity.
  - do 2 f_equal. assert (HLL : L' = L0) by (subst L' Nn; lia).
    unfold grownT. rewrite HLL.
    rewrite Nat.sub_diag. cbn [Nat.mul seq map]. rewrite app_nil_r.
    destruct base as [sz it]; cbn in *. now subst sz.
Qed.

Lemma cursor_pass {Y} (K : Z -> M A Y) :
  (0 < k)%nat ->
  bind (gets A NEXT)
    (fun next =>
       bind (enforce A (0 =? s_ndim next) EnforceNextRank)
         (fun _ =>
            bind (when A (negb i) (store_next A 0))
              (fun _ =>
                 bind (gets A (fun s => s_value (NEXT s)))
                   (fun next_data =>
                      bind (gets A LAST_N)
                        (fun output =>
                           bind (enforce A (next_data <? dim output 0)
                                   EnforceNextRange)
                                (fun _ => K next_data))))))
    (mkBlobs grownT (NEXT st) nv')
  = emit (if i then [] else [StoreNext 0])
         (K c0 (mkBlobs grownT (mkScalar [] c0) nv')).
Proof.
  intros Hk.
  destruct Hcap as (HN & _).
  pose proof prior_cursor_bound as Hc. pose proof prior_rows_bound as HL0.
  destruct Hst as (Hnext & _).
  rewrite bind_gets. cbn [NEXT]. rewrite bind_enforce.
  unfold s_ndim. rewrite Hnext. cbn [length Z.of_nat Z.eqb].
  rewrite bind_when.
  assert (Hlt : (c0 <? Z.of_nat L') = true).
  { apply Z.ltb_lt. subst L' Nn. lia. }
  subst c0. unfold prior_cursor, cursor in *. fold (initialized head_nonnull st) in i.
  destruct (initialized head_nonnull st); subst i; cbn [negb].
  - rewrite bind_gets, bind_gets. cbn [NEXT LAST_N grownT dim sizes nth].
    rewrite bind_enforce, Hlt, emit_nil.
    destruct (NEXT st) as [sz v]; cbn in *. now subst sz.
  - rewrite bind_store_next. cbn [NEXT LAST_N NUM_VISITED].
    rewrite bind_gets, bind_gets. cbn [NEXT LAST_N grownT dim sizes nth s_value].
    rewrite bind_enforce, Hlt, Hnext. reflexivity.
Qed.

Let b := rows input.
Let pre := if i then [] else [StoreNext 0].

Ltac prologue Hws :=
  unfold collect; rewrite bind_gets; cbv beta zeta;
  rewrite (well_shaped_dim0 _ _ _ Hws), (well_shaped_block _ _ _ Hws);
  rewrite checks_pass, visited_pass, resize_pass.

Lemma collect_empty :
  k = O ->
  collect head_nonnull uninit N input st
  = mkRun (Returned true)
      (mkBlobs (if i then LAST_N st else input) (NEXT st) nv') [].
Proof.
  intros Hk0. pose proof Hin as (Hws & Hk31 & Hk63).
  prologue Hws. rewrite Hk0. cbn [Z.of_nat Z.eqb].
  rewrite bind_when. unfold base, i.
  destruct (output_initialized head_nonnull (LAST_N st)); cbn [negb]; [reflexivity|].
  now rewrite bind_with_output.
Qed.

Lemma collect_oversize :
  (Nn < k)%nat ->
  exists data,
    collect head_nonnull uninit N input st
    = mkRun (Returned true)
        (mkBlobs (mkTensor (N :: inner) data) (mkScalar [] 0) nv')
        (pre ++ [CopyItems (N * bsz) ((Z.of_nat k - N) * bsz) 0; StoreNext 0])
    /\ length data = (Nn * bs)%nat
    /\ chunks bs Nn data = lastn Nn b.
Proof.
  intros Hk. pose proof Hin as (Hws & Hk31 & Hk63).
  pose proof Hcap as (HN & Hbsz & Hfit).
  pose proof prior_rows_bound as HL0.
  assert (HL' : L' = Nn) by (subst L' Nn; lia).
  destruct (copy_items_rows bsz L' k 0 Nn (k - Nn) (items grownT) (items input)
              Hbsz (proj2 grown_shaped) (proj2 Hws)) as (data & Hcopy & Hlen & Hrows);
    [lia | lia |].
  fold bs in Hlen, Hrows.
  exists data. split; [|split].
  - prologue Hws.
    replace (Z.of_nat k =? 0) with false by (symmetry; apply Z.eqb_neq; lia).
    rewrite extend_pass, cursor_pass by lia.
    replace (N <? Z.of_nat k) with true by (symmetry; apply Z.ltb_lt; subst Nn; lia).
    rewrite !to_int32_small by lia.
    replace (Z.min (Z.of_nat k) N) with N by (subst Nn; lia).
    rewrite !to_size_t_small by (subst bsz Nn; nia).
    rewrite bind_CopyItemsSameDevice. cbn [LAST_N NEXT NUM_VISITED].
    replace (Z.of_nat Nn) with N in Hcopy by (subst Nn; lia).
    replace (Z.of_nat (k - Nn)) with (Z.of_nat k - N) in Hcopy by (subst Nn; lia).
    cbn [Z.of_nat Z.mul] in Hcopy. fold bsz. rewrite Hcopy.
    rewrite bind_store_next. cbn [LAST_N NEXT NUM_VISITED sizes grownT s_sizes].
    unfold emit, ret. cbn [result final issued]. rewrite HL'.
    replace (Z.of_nat Nn) with N by (subst Nn; lia).
    unfold pre, i.
    destruct (output_initialized head_nonnull (LAST_N st)); reflexivity.
  - now rewrite Hlen, HL'.
  - rewrite HL' in Hrows. rewrite Hrows. unfold overwrite. cbn [firstn app].
    pose proof (well_shaped_rows _ _ _ Hws) as Hrb. fold bsz bs b in Hrb.
    rewrite <- Hrb.
    assert (Hb : length b = k) by apply (well_shaped_rows_length _ _ _ Hws).
    rewrite length_firstn, length_skipn, Hb.
    replace (Nat.min Nn (k - (k - Nn))) with Nn by lia.
    rewrite (skipn_all2 (n := 0 + Nn)) by (rewrite chunks_length; lia).
    rewrite app_nil_r. unfold lastn. rewrite Hb.
    apply firstn_all2. rewrite length_skipn. lia.
Qed.

Let cn := Z.to_nat c0.
Let fcs := (Nat.min (k + cn) Nn - cn)%nat.

Lemma collect_circular :
  (0 < k <= Nn)%nat ->
  exists data,
    collect head_nonnull uninit N input st
    = mkRun (Returned true)
        (mkBlobs (mkTensor (Z.of_nat L' :: inner) data)
                 (mkScalar [] ((c0 + Z.of_nat k) mod N)) nv')
        (pre ++ [CopyItems (Z.of_nat fcs * bsz) 0 (c0 * bsz);
                 CopyItems (Z.of_nat (k - fcs) * bsz) (Z.of_nat fcs * bsz) 0;
                 StoreNext ((c0 + Z.of_nat k) mod N)])
    /\ length data = (L' * bs)%nat
    /\ chunks bs L' data
       = overwrite 0 (skipn fcs b) (overwrite cn (firstn fcs b) (rows grownT)).
Proof.
  intros Hk. pose proof Hin as (Hws & Hk31 & Hk63).
  pose proof Hcap as (HN & Hbsz & Hfit).
  pose proof prior_rows_bound as HL0. pose proof prior_cursor_bound as Hc.
  assert (HL' : L' = Nat.min Nn (L0 + k)) by (subst L'; lia).
  assert (HkN : 0 < Z.of_nat k <= N) by (subst Nn; lia).
  destruct (copy_items_rows bsz L' k cn fcs 0 (items grownT) (items input)
              Hbsz (proj2 grown_shaped) (proj2 Hws))
    as (data1 & Hcopy1 & Hlen1 & Hrows1); [subst fcs cn Nn; lia | subst fcs; lia |].
  destruct (copy_items_rows bsz L' k 0 (k - fcs) fcs data1 (items input)
              Hbsz Hlen1 (proj2 Hws))
    as (data & Hcopy & Hlen & Hrows); [subst fcs cn Nn; lia | subst fcs; lia |].
  fold bs in Hlen, Hrows, Hrows1.
  exists data. split; [|split].
  - prologue Hws.
    replace (Z.of_nat k =? 0) with false by (symmetry; apply Z.eqb_neq; lia).
    rewrite extend_pass, cursor_pass by lia.
    replace (N <? Z.of_nat k) with false by (symmetry; apply Z.ltb_ge; subst Nn; lia).
    rewrite (to_int32_small (Z.of_nat k)), (to_int32_small N) by lia.
    replace (Z.min (Z.of_nat k) N) with (Z.of_nat k) by lia.
    rewrite (to_int32_small (Z.of_nat k + c0)) by lia.
    rewrite (to_int32_small (c0 + Z.of_nat k)) by lia.
    rewrite (to_size_t_small (Z.of_nat k + c0)), (to_size_t_small N),
      (to_size_t_small c0) by lia.
    replace (Z.min (Z.of_nat k + c0) N - c0) with (Z.of_nat fcs)
      by (subst fcs cn Nn; lia).
    assert (Hfk : (fcs <= k)%nat) by (subst fcs; lia).
    rewrite (to_size_t_small (Z.of_nat fcs)) by lia.
    rewrite (to_size_t_small (Z.of_nat k - Z.of_nat fcs)) by lia.
    assert (Hprod : forall x, 0 <= x <= N -> 0 <= x * bsz < 18446744073709551616)
      by (intros; subst bsz; nia).
    rewrite !to_size_t_small by (apply Hprod; subst fcs cn Nn; lia).
    rewrite Z.rem_mod_nonneg by lia.
    replace (Z.of_nat cn) with c0 in Hcopy1 by (subst cn; lia).
    replace (Z.of_nat k - Z.of_nat fcs) with (Z.of_nat (k - fcs)) by lia.
    cbn [Z.of_nat Z.mul] in Hcopy1, Hcopy. fold bsz.
    rewrite bind_CopyItemsSameDevice. cbn [LAST_N NEXT NUM_VISITED]. rewrite Hcopy1.
    rewrite bind_CopyItemsSameDevice. cbn [LAST_N NEXT NUM_VISITED items]. rewrite Hcopy.
    rewrite bind_store_next. cbn [LAST_N NEXT NUM_VISITED sizes grownT s_sizes].
    unfold emit, ret. cbn [result final issued].
    unfold pre, i.
    destruct (output_initialized head_nonnull (LAST_N st)); reflexivity.
  - exact Hlen.
  - rewrite Hrows, Hrows1.
    pose proof (well_shaped_rows _ _ _ Hws) as Hrb. fold bsz bs b in Hrb.
    pose proof (well_shaped_rows _ _ _ grown_shaped) as Hrg. fold bsz bs in Hrg.
    rewrite <- Hrb, <- Hrg. cbn [skipn].
    assert (Hb : length b = k) by apply (well_shaped_rows_length _ _ _ Hws).
    rewrite (firstn_all2 (n := k - fcs)) by (rewrite length_skipn; lia).
    reflexivity.
Qed.

(** The buffer after a call that went through the copies. *)
Lemma window_of_data (n : nat) (data : list A) (nx : Scalar) (nv : option Scalar) :
  length data = (n * bs)%nat ->
  window (mkBlobs (mkTensor (Z.of_nat n :: inner) data) nx nv) = chunks bs n data.
Proof.
  intros Hlen. unfold window. cbn [LAST_N].
  apply (well_shaped_rows inner n). split; [reflexivity | exact Hlen].
Qed.

(** What the sequel needs to know of a call with a batch that has rows. *)
Lemma collect_step :
  (0 < k)%nat ->
  let r := collect head_nonnull uninit N input st in
  let n := Nat.min (Z.to_nat N)
             (length (prior_window head_nonnull st) + Nat.min k (Z.to_nat N)) in
  let start := Z.to_nat (prior_cursor head_nonnull st) in
  let first_chunk := (Nat.min (k + start) (Z.to_nat N) - start)%nat in
  result r = Returned true
  /\ well_shaped inner n (LAST_N (final r))
  /\ s_sizes (NEXT (final r)) = []
  /\ NUM_VISITED (final r)
     = option_map
         (fun t => mkScalar (s_sizes t)
                     (prior_visited head_nonnull st + Z.of_nat k))
         (NUM_VISITED st)
  /\ (N < Z.of_nat k ->
        window (final r) = lastn (Z.to_nat N) (rows input)
        /\ cursor (final r) = 0)
  /\ (Z.of_nat k <= N ->
        exists grown,
          length grown = n
          /\ firstn (length (prior_window head_nonnull st)) grown
             = prior_window head_nonnull st
          /\ window (final r)
             = overwrite 0 (skipn first_chunk (rows input))
                 (overwrite start (firstn first_chunk (rows input)) grown)
          /\ cursor (final r)
             = (prior_cursor head_nonnull st + Z.of_nat k) mod N).
Proof.
  intros Hk0 r n start first_chunk. pose proof Hcap as (HN & _).
  pose proof prior_rows_bound as HL0.
  destruct (Z_lt_le_dec N (Z.of_nat k)) as [Hover|Hfit].
  - destruct collect_oversize as (data & Hrun & Hlen & Hrows); [subst Nn; lia|].
    subst r. rewrite Hrun. cbn [result final LAST_N NEXT NUM_VISITED s_sizes].
    assert (Hn : n = Nn) by (subst n L0 w0 Nn; lia).
    repeat split; try reflexivity; try lia.
    + cbn [sizes]. rewrite Hn. f_equal. subst Nn; lia.
    + cbn [items]. now rewrite Hn.
    + replace N with (Z.of_nat Nn) at 1 by (subst Nn; lia).
      rewrite window_of_data by exact Hlen. exact Hrows.
  - destruct collect_circular as (data & Hrun & Hlen & Hrows); [subst Nn; lia|].
    subst r. rewrite Hrun. cbn [result final LAST_N NEXT NUM_VISITED s_sizes].
    repeat split; try reflexivity; try lia.
    + exact Hlen.
    + intros _. exists (rows grownT). repeat split.
      * apply (well_shaped_rows_length _ _ _ grown_shaped).
      * exact grown_rows.
      * rewrite window_of_data by exact Hlen. exact Hrows.
Qed.

(** X7: a batch of more rows than the capacity, but of fewer than [2^31]:
    the call stores the last [numToCollect] rows of the batch in the slots
    [0 .. numToCollect - 1], in their order, with one copy, and sets the
    cursor to [0]. *)
Theorem oversized_batch_overwrites :
  N < Z.of_nat k ->
  let r := collect head_nonnull uninit N input st in
  result r = Returned true
  /\ issued r
     = (if initialized head_nonnull st then [] else [StoreNext 0])
       ++ [CopyItems (N * numel inner) ((Z.of_nat k - N) * numel inner) 0;
           StoreNext 0]
  /\ window (final r) = lastn (Z.to_nat N) (rows input)
  /\ window_length (final r) = N
  /\ cursor (final r) = 0.
Proof.
  intros Hk r. pose proof Hcap as (HN & _).
  destruct collect_oversize as (data & Hrun & Hlen & Hrows); [subst Nn; lia|].
  subst r. rewrite Hrun. cbn [result final issued].
  repeat split; try reflexivity.
  replace N with (Z.of_nat Nn) at 1 by (subst Nn; lia).
  rewrite window_of_data by exact Hlen. exact Hrows.
Qed.

(** X15: a batch of [k] rows, [0 < k <= numToCollect], as the code has it.
    With [start] the cursor on entry when the buffer passes for initialised,
    and [0] when it does not, be it the first call or a later one, and
    [first_chunk = min (k + start) numToCollect - start], the call issues two
    copies: the first [first_chunk] rows of the batch go to the slots from
    [start] on, the other [k - first_chunk] rows to the slots from [0] on (no
    row when nothing wraps around); and the cursor becomes
    [(start + k) mod numToCollect].  [grown] is the buffer after it was
    grown: the rows it had, followed by the slots that were added. *)
Theorem circular_insertion :
  (0 < k)%nat -> Z.of_nat k <= N ->
  let r := collect head_nonnull uninit N input st in
  let start := prior_cursor head_nonnull st in
  let first_chunk := Z.min (Z.of_nat k + start) N - start in
  exists grown,
    length grown
    = Nat.min (Z.to_nat N) (length (prior_window head_nonnull st) + k)
    /\ firstn (length (prior_window head_nonnull st)) grown
       = prior_window head_nonnull st
    /\ result r = Returned true
    /\ issued r
       = (if initialized head_nonnull st then [] else [StoreNext 0])
         ++ [CopyItems (first_chunk * numel inner) 0 (start * numel inner);
             CopyItems ((Z.of_nat k - first_chunk) * numel inner)
                       (first_chunk * numel inner) 0;
             StoreNext ((start + Z.of_nat k) mod N)]
    /\ window (final r)
       = overwrite 0 (skipn (Z.to_nat first_chunk) (rows input))
           (overwrite (Z.to_nat start)
              (firstn (Z.to_nat first_chunk) (rows input)) grown)
    /\ cursor (final r) = (start + Z.of_nat k) mod N.
Proof.
  intros Hk0 HkN r start first_chunk. pose proof Hcap as (HN & _).
  pose proof prior_cursor_bound as Hc.
  destruct collect_circular as (data & Hrun & Hlen & Hrows); [subst Nn; lia|].
  assert (Hfc : first_chunk = Z.of_nat fcs)
    by (subst first_chunk start fcs cn Nn; fold c0; lia).
  exists (rows grownT). split; [|split; [|split; [|split; [|split]]]].
  - rewrite (well_shaped_rows_length _ _ _ grown_shaped). subst L' L0 w0 Nn. lia.
  - exact grown_rows.
  - subst r. now rewrite Hrun.
  - subst r. rewrite Hrun. cbn [issued]. rewrite Hfc. subst start. fold c0.
    replace (Z.of_nat k - Z.of_nat fcs) with (Z.of_nat (k - fcs))
      by (subst fcs; lia).
    reflexivity.
  - subst r. rewrite Hrun. cbn [final].
    rewrite window_of_data by exact Hlen.
    rewrite Hrows, Hfc, Nat2Z.id. reflexivity.
  - subst r. now rewrite Hrun.
Qed.

(** C9, under the conditions of the data model: a buffer of at most
    [numToCollect] rows, and a cursor that is not beyond the rows the buffer
    has before the call.  Every copy that a call with a batch that is not
    empty issues writes whole rows to slots of the buffer as it is after its
    growth, and in the circular case the second copy ends before the first
    one starts, so that the two ranges of slots are disjoint. *)
Theorem copies_stay_in_window :
  (0 < k)%nat ->
  let r := collect head_nonnull uninit N input st in
  result r = Returned true
  /\ (forall n src dst, In (CopyItems n src dst) (issued r) ->
        exists slot count : nat,
          dst = Z.of_nat slot * numel inner
          /\ n = Z.of_nat count * numel inner
          /\ Z.of_nat (slot + count) <= window_length (final r))
  /\ (Z.of_nat k <= N ->
        exists n1 src1 slot1 n2 src2 c',
          issued r
          = (if initialized head_nonnull st then [] else [StoreNext 0])
            ++ [CopyItems n1 src1 (Z.of_nat slot1 * numel inner);
                CopyItems (Z.of_nat n2 * numel inner) src2 0;
                StoreNext c']
          /\ (n2 <= slot1)%nat).
Proof.
  intros Hk0 r. pose proof Hcap as (HN & _).
  pose proof prior_cursor_bound as Hc. pose proof prior_rows_bound as HL0.
  assert (Hpre : forall n src dst,
             ~ In (CopyItems n src dst)
                  (if initialized head_nonnull st then [] else [StoreNext 0])).
  { intros n src dst. destruct (initialized head_nonnull st); simpl; [tauto|].
    intros [H|[]]; discriminate. }
  destruct (Z_lt_le_dec N (Z.of_nat k)) as [Hover|Hfit].
  - destruct collect_oversize as (data & Hrun & Hlen & Hrows); [subst Nn; lia|].
    subst r. rewrite Hrun. cbn [result final issued window_length LAST_N dim sizes nth].
    split; [reflexivity|]. split; [|lia].
    intros n src dst Hin'. apply in_app_or in Hin'.
    destruct Hin' as [Hin'|[Hin'|[Hin'|[]]]];
      [now apply Hpre in Hin' | | discriminate].
    injection Hin' as <- <- <-. exists O, Nn. fold bsz.
    repeat split; subst Nn; lia.
  - destruct collect_circular as (data & Hrun & Hlen & Hrows); [subst Nn; lia|].
    subst r. rewrite Hrun. cbn [result final issued window_length LAST_N dim sizes nth].
    split; [reflexivity|]. split.
    + intros n src dst Hin'. apply in_app_or in Hin'.
      destruct Hin' as [Hin'|[Hin'|[Hin'|[Hin'|[]]]]];
        [now apply Hpre in Hin' | | | discriminate].
      * injection Hin' as <- <- <-. exists cn, fcs. fold bsz.
        repeat split; subst cn fcs L' Nn; lia.
      * injection Hin' as <- <- <-. exists O, (k - fcs)%nat. fold bsz.
        repeat split; subst cn fcs L' Nn; lia.
    + intros _.
      exists (Z.of_nat fcs * bsz), 0, cn, (k - fcs)%nat, (Z.of_nat fcs * bsz),
        ((c0 + Z.of_nat k) mod N).
      split; [|subst cn fcs Nn; lia].
      fold bsz. replace (Z.of_nat cn) with c0 by (subst cn; lia). reflexivity.
Qed.

(** X16: as the code has it, a call with a batch without rows returns without
    a copy and without a store to the cursor, and leaves NEXT as it is.  When
    the buffer passes for initialised, nothing at all changes.  When it does
    not, the buffer becomes the (empty) batch and the count, if there is one,
    is set to zero.  A call with a batch that has rows stores to the
    cursor. *)
Theorem empty_batch :
  let r := collect head_nonnull uninit N input st in
  (k = O ->
     result r = Returned true
     /\ issued r = []
     /\ NEXT (final r) = NEXT st
     /\ (initialized head_nonnull st = true -> final r = st)
     /\ (initialized head_nonnull st = false ->
           LAST_N (final r) = input
           /\ visited (final r) = option_map (fun _ => 0) (NUM_VISITED st)))
  /\ ((0 < k)%nat ->
        result r = Returned true /\ exists v, In (StoreNext v) (issued r)).
Proof.
  intros r. pose proof Hcap as (HN & _). split.
  - intros Hk0. subst r. rewrite (collect_empty Hk0). cbn [result final issued].
    repeat split.
    + intros Hi. unfold i, initialized in *. rewrite Hi.
      subst nv' v0. unfold prior_visited, initialized. rewrite Hi, Hk0.
      destruct st as [o nx [[sz v]|]]; cbn; [|reflexivity].
      now rewrite Z.add_0_r.
    + unfold i, initialized in *. now rewrite H.
    + unfold visited. cbn [NUM_VISITED]. subst nv' v0.
      unfold prior_visited. rewrite H, Hk0.
      now destruct (NUM_VISITED st).
  - intros Hk0. destruct (Z_lt_le_dec N (Z.of_nat k)) as [Hover|Hfit].
    + destruct collect_oversize as (data & Hrun & _); [subst Nn; lia|].
      subst r. rewrite Hrun. cbn [result issued]. split; [reflexivity|].
      exists 0. apply in_or_app. right. simpl. tauto.
    + destruct collect_circular as (data & Hrun & _); [subst Nn; lia|].
      subst r. rewrite Hrun. cbn [result issued]. split; [reflexivity|].
      eexists. apply in_or_app. right. simpl. right. right. left. reflexivity.
Qed.

(** ** What one call does to the slots of the buffer *)

Lemma prior_visited_nonneg : 0 <= v0.
Proof.
  destruct Hst as (_ & _ & Hinit). subst v0. unfold prior_visited in *.
  destruct (initialized head_nonnull st); [|lia].
  now destruct (Hinit eq_refl) as (_ & _ & _ & _ & Hv).
Qed.

Lemma visited_after_bound (o : Tensor A) (nx : Scalar) :
  0 <= prior_visited head_nonnull (mkBlobs o nx nv') <= v0 + Z.of_nat k.
Proof.
  pose proof prior_visited_nonneg as Hv. unfold prior_visited.
  cbn [NUM_VISITED]. subst nv'.
  destruct (initialized head_nonnull _); [|lia].
  destruct (NUM_VISITED st); cbn [option_map s_value]; lia.
Qed.

Lemma visited_after_size :
  match nv' with Some t => s_size t = 1 | None => True end.
Proof.
  destruct Hst as (_ & Hnv & _). subst nv'.
  destruct (NUM_VISITED st); cbn [option_map]; [exact Hnv | exact I].
Qed.

(** The conditions on the blobs hold again after the call. *)
Lemma collect_keeps_state_ok :
  let r := collect head_nonnull uninit N input st in
  result r = Returned true
  /\ state_ok head_nonnull N inner (final r)
  /\ prior_visited head_nonnull (final r)
     <= prior_visited head_nonnull st + Z.of_nat k.
Proof.
  intros r. pose proof Hcap as (HN & Hbsz & _).
  pose proof prior_cursor_bound as Hc. pose proof prior_rows_bound as HL0.
  pose proof visited_after_size as Hsz.
  destruct (Nat.eq_dec k 0) as [Hk0|Hk0].
  - subst r. rewrite (collect_empty Hk0). cbn [result final].
    split; [reflexivity|]. split; [|apply visited_after_bound].
    pose proof Hst as (Hnx & _ & Hinit).
    split; [exact Hnx|]. split; [exact Hsz|].
    unfold initialized, window_length, cursor. cbn [LAST_N NEXT].
    intros Hi'. unfold i in *.
    destruct (output_initialized head_nonnull (LAST_N st)) eqn:Hi.
    + destruct (Hinit Hi) as (Hws & Hwl & Hcur & HcN & _).
      split; [exact Hws|]. split; [exact Hwl|]. split; [exact Hcur|].
      split; [exact HcN|]. apply visited_after_bound.
    + exfalso. destruct Hin as (Hws & _).
      unfold output_initialized in Hi'.
      rewrite (well_shaped_size _ _ _ Hws), Hk0 in Hi'. discriminate Hi'.
  - destruct (Z_lt_le_dec N (Z.of_nat k)) as [Hover|Hfit].
    + destruct collect_oversize as (data & Hrun & Hlen & _); [subst Nn; lia|].
      subst r. rewrite Hrun. cbn [result final].
      split; [reflexivity|]. split; [|apply visited_after_bound].
      split; [reflexivity|]. split; [exact Hsz|]. intros _.
      unfold window_length, cursor, num_rows, dim.
      cbn [LAST_N NEXT sizes nth s_value].
      split; [|split; [lia|split; [lia|split; [lia|apply visited_after_bound]]]].
      split; [cbn [sizes]; f_equal; lia|].
      cbn [items]. rewrite Hlen. reflexivity.
    + destruct collect_circular as (data & Hrun & Hlen & _); [subst Nn; lia|].
      subst r. rewrite Hrun. cbn [result final].
      split; [reflexivity|]. split; [|apply visited_after_bound].
      split; [reflexivity|]. split; [exact Hsz|]. intros _.
      unfold window_length, cursor, num_rows, dim.
      cbn [LAST_N NEXT sizes nth s_value].
      assert (Hmod : 0 <= (c0 + Z.of_nat k) mod N < N)
        by (apply Z.mod_pos_bound; lia).
      assert (Hle : (c0 + Z.of_nat k) mod N <= Z.of_nat L').
      { destruct (Z_lt_le_dec (c0 + Z.of_nat k) N) as [Hs|Hb].
        - rewrite Z.mod_small by lia. subst L' Nn. lia.
        - replace L' with Nn by (subst L' Nn; lia). subst Nn. lia. }
      split; [|split; [subst L' Nn; lia|split; [lia|split; [lia|apply visited_after_bound]]]].
      split; [cbn [sizes]; f_equal; lia|].
      cbn [items]. rewrite Nat2Z.id. exact Hlen.
Qed.

(** X6: every copy that a call with a batch that is not empty issues reads
    whole rows of the batch: its source is a range of rows
    [first .. first + count - 1] of the [k] rows of the batch. *)
Theorem copies_read_inside_batch :
  (0 < k)%nat ->
  let r := collect head_nonnull uninit N input st in
  forall n src dst, In (CopyItems n src dst) (issued r) ->
    exists first count : nat,
      src = Z.of_nat first * numel inner
      /\ n = Z.of_nat count * numel inner
      /\ (first + count <= k)%nat.
Proof.
  intros Hk0 r n src dst Hin'. pose proof Hcap as (HN & _).
  assert (Hpre : ~ In (CopyItems n src dst) pre).
  { unfold pre. destruct i; simpl; [tauto|]. intros [H|[]]; discriminate. }
  destruct (Z_lt_le_dec N (Z.of_nat k)) as [Hover|Hfit].
  - destruct collect_oversize as (data & Hrun & _); [subst Nn; lia|].
    subst r. rewrite Hrun in Hin'. cbn [issued] in Hin'.
    apply in_app_or in Hin'.
    destruct Hin' as [Hin'|[Hin'|[Hin'|[]]]]; [tauto | | discriminate].
    injection Hin' as <- <- <-. exists (k - Nn)%nat, Nn. fold bsz.
    repeat split; subst Nn; lia.
  - destruct collect_circular as (data & Hrun & _); [subst Nn; lia|].
    subst r. rewrite Hrun in Hin'. cbn [issued] in Hin'.
    apply in_app_or in Hin'.
    destruct Hin' as [Hin'|[Hin'|[Hin'|[Hin'|[]]]]]; [tauto | | | discriminate].
    + injection Hin' as <- <- <-. exists O, fcs. fold bsz.
      repeat split; subst fcs; lia.
    + injection Hin' as <- <- <-. exists fcs, (k - fcs)%nat. fold bsz.
      repeat split; subst fcs; lia.
Qed.

Lemma circular_window :
  (0 < k <= Nn)%nat ->
  let w' := window (final (collect head_nonnull uninit N input st)) in
  w' = overwrite 0 (skipn fcs b) (overwrite cn (firstn fcs b) (rows grownT))
  /\ length b = k
  /\ length (rows grownT) = L'
  /\ (cn + fcs <= L')%nat
  /\ (k - fcs <= cn)%nat
  /\ (fcs <= k)%nat.
Proof.
  intros Hk w'. pose proof Hcap as (HN & _).
  pose proof prior_cursor_bound as Hc. pose proof prior_rows_bound as HL0.
  destruct collect_circular as (data & Hrun & Hlen & Hrows); [exact Hk|].
  subst w'. rewrite Hrun. cbn [final].
  rewrite window_of_data by exact Hlen.
  split; [exact Hrows|].
  split; [apply (well_shaped_rows_length _ _ _ (proj1 Hin))|].
  split; [apply (well_shaped_rows_length _ _ _ grown_shaped)|].
  subst fcs cn L' Nn. lia.
Qed.

(** X8: in the circular case, row [j] of the batch is afterwards in slot
    [(start + j) mod numToCollect] of the buffer, [start] being the cursor
    that the call started from. *)
Theorem batch_rows_land_in_ring_slots :
  (0 < k)%nat -> Z.of_nat k <= N ->
  let r := collect head_nonnull uninit N input st in
  let start := prior_cursor head_nonnull st in
  forall j, (j < k)%nat ->
    nth_error (window (final r)) (Z.to_nat ((start + Z.of_nat j) mod N))
    = nth_error (rows input) j.
Proof.
  intros Hk0 HkN r start j Hj. pose proof Hcap as (HN & _).
  pose proof prior_cursor_bound as Hc.
  destruct circular_window as (Hw & Hb & Hg & Hfit & Hwrap & Hfk);
    [subst Nn; lia|].
  subst r. rewrite Hw. subst start. fold c0. fold b.
  assert (Hl1 : length (firstn fcs b) = fcs) by (rewrite length_firstn; lia).
  assert (Hl2 : length (skipn fcs b) = (k - fcs)%nat)
    by (rewrite length_skipn; lia).
  assert (Hin1 : (cn + length (firstn fcs b) <= length (rows grownT))%nat)
    by (rewrite Hl1, Hg; exact Hfit).
  assert (Hin2 : (0 + length (skipn fcs b)
                  <= length (overwrite cn (firstn fcs b) (rows grownT)))%nat).
  { rewrite (overwrite_length _ _ _ Hin1), Hl2, Hg. lia. }
  destruct (Nat.lt_ge_cases j fcs) as [Hlo|Hhi].
  - assert (Hidx : Z.to_nat ((c0 + Z.of_nat j) mod N) = (cn + j)%nat).
    { rewrite Z.mod_small by (subst fcs cn Nn; lia). subst cn. lia. }
    rewrite Hidx.
    rewrite (nth_error_overwrite_out _ _ _ _ Hin2) by (rewrite Hl2; lia).
    rewrite (nth_error_overwrite_in _ _ _ _ Hin1) by (rewrite Hl1; lia).
    replace (cn + j - cn)%nat with j by lia.
    rewrite nth_error_firstn.
    destruct (Nat.ltb_spec j fcs); [reflexivity | lia].
  - assert (Hidx : Z.to_nat ((c0 + Z.of_nat j) mod N) = (j - fcs)%nat).
    { assert (Hm : (c0 + Z.of_nat j) mod N = c0 + Z.of_nat j - N).
      { symmetry. apply (Z.mod_unique _ _ 1); subst fcs cn Nn; lia. }
      rewrite Hm. subst fcs cn Nn. lia. }
    rewrite Hidx.
    rewrite (nth_error_overwrite_in _ _ _ _ Hin2) by (rewrite Hl2; lia).
    rewrite nth_error_skipn. f_equal. lia.
Qed.

(** X9: in the circular case, a slot that the buffer had before the call and
    that is none of the slots [(start + j) mod numToCollect], [j < k], holds
    afterwards the row that it held before. *)
Theorem other_slots_keep_their_rows :
  (0 < k)%nat -> Z.of_nat k <= N ->
  let r := collect head_nonnull uninit N input st in
  let start := prior_cursor head_nonnull st in
  forall slot, (slot < length (prior_window head_nonnull st))%nat ->
    (forall j, (j < k)%nat -> Z.of_nat slot <> (start + Z.of_nat j) mod N) ->
    nth_error (window (final r)) slot
    = nth_error (prior_window head_nonnull st) slot.
Proof.
  intros Hk0 HkN r start slot Hslot Hfree. pose proof Hcap as (HN & _).
  pose proof prior_cursor_bound as Hc. pose proof prior_rows_bound as HL0.
  destruct circular_window as (Hw & Hb & Hg & Hfit & Hwrap & Hfk);
    [subst Nn; lia|].
  subst r. rewrite Hw. subst start. fold c0 in Hfree. fold w0 L0 in Hslot |- *.
  assert (Hl1 : length (firstn fcs b) = fcs) by (rewrite length_firstn; lia).
  assert (Hl2 : length (skipn fcs b) = (k - fcs)%nat)
    by (rewrite length_skipn; lia).
  assert (Hin1 : (cn + length (firstn fcs b) <= length (rows grownT))%nat)
    by (rewrite Hl1, Hg; exact Hfit).
  assert (Hin2 : (0 + length (skipn fcs b)
                  <= length (overwrite cn (firstn fcs b) (rows grownT)))%nat).
  { rewrite (overwrite_length _ _ _ Hin1), Hl2, Hg. lia. }
  assert (Hout2 : (k - fcs <= slot)%nat).
  { destruct (Nat.lt_ge_cases slot (k - fcs)) as [Hlt|Hge]; [|exact Hge].
    exfalso. apply (Hfree (slot + fcs)%nat); [lia|].
    apply (Z.mod_unique _ _ 1); subst fcs cn Nn; lia. }
  assert (Hout1 : (slot < cn \/ cn + fcs <= slot)%nat).
  { destruct (Nat.lt_ge_cases slot cn) as [Hlt|Hge]; [now left|]. right.
    destruct (Nat.lt_ge_cases slot (cn + fcs)) as [Hlt'|Hge']; [|exact Hge'].
    exfalso. apply (Hfree (slot - cn)%nat); [lia|].
    rewrite Z.mod_small; subst fcs cn Nn; lia. }
  rewrite (nth_error_overwrite_out _ _ _ _ Hin2) by (rewrite Hl2; lia).
  rewrite (nth_error_overwrite_out _ _ _ _ Hin1) by (rewrite Hl1; exact Hout1).
  rewrite <- grown_rows, nth_error_firstn.
  destruct (Nat.ltb_spec slot L0); [reflexivity | lia].
Qed.

End OneCall.

(** ** The buffer as a ring *)

Section Ring.

Context {X : Type}.
Implicit Types (l w b hist : list X) (n k c : nat).

Lemma skipn_app_l n l1 l2 :
  (n <= length l1)%nat -> skipn n (l1 ++ l2) = skipn n l1 ++ l2.
Proof.
  intros H. rewrite skipn_app. replace (n - length l1)%nat with O by lia.
  reflexivity.
Qed.

Lemma skipn_app_r n l1 l2 :
  (length l1 <= n)%nat -> skipn n (l1 ++ l2) = skipn (n - length l1) l2.
Proof. intros H. rewrite skipn_app, skipn_all2 by lia. reflexivity. Qed.

Lemma firstn_app_l n l1 l2 :
  (n <= length l1)%nat -> firstn n (l1 ++ l2) = firstn n l1.
Proof.
  intros H. rewrite firstn_app. replace (n - length l1)%nat with O by lia.
  now rewrite firstn_O, app_nil_r.
Qed.

Lemma firstn_app_r n l1 l2 :
  (length l1 <= n)%nat -> firstn n (l1 ++ l2) = l1 ++ firstn (n - length l1) l2.
Proof. intros H. rewrite firstn_app, firstn_all2 by lia. reflexivity. Qed.

Lemma lastn_all n l : (length l <= n)%nat -> lastn n l = l.
Proof.
  intros H. unfold lastn. replace (length l - n)%nat with O by lia. reflexivity.
Qed.

Lemma lastn_app_long n l b : (n <= length b)%nat -> lastn n (l ++ b) = lastn n b.
Proof.
  intros H. unfold lastn. rewrite length_app, skipn_app_r by lia.
  f_equal. lia.
Qed.

(** The last [n] of a history that was extended by [k <= n] elements. *)
Lemma lastn_app_short n l b :
  (n <= length l)%nat -> (length b <= n)%nat ->
  lastn n (l ++ b) = skipn (length b) (lastn n l ++ b).
Proof.
  intros Hl Hb. unfold lastn. rewrite length_app.
  rewrite !skipn_app_l by (rewrite ?length_skipn; lia).
  rewrite skipn_skipn. do 2 f_equal. lia.
Qed.

Lemma incl_lastn n l : incl (lastn n l) l.
Proof.
  unfold lastn. intros x Hx. rewrite <- (firstn_skipn (length l - n) l).
  apply in_or_app. now right.
Qed.

(** The elements of a ring are those of its unrolling from any slot on. *)
Lemma unroll_perm c w : Permutation w (skipn c w ++ firstn c w).
Proof.
  rewrite <- (firstn_skipn c w) at 1. apply Permutation_app_comm.
Qed.

(** Insertion into a buffer that is not full yet: the rows so far are
    [hist], in their order, and the cursor is their number. *)
Lemma ring_fill (N k : nat) hist b grown :
  (length hist < N)%nat -> (0 < k <= N)%nat -> length b = k ->
  length grown = Nat.min N (length hist + k) ->
  firstn (length hist) grown = hist ->
  let fc := (Nat.min (k + length hist) N - length hist)%nat in
  let w' := overwrite 0 (skipn fc b) (overwrite (length hist) (firstn fc b) grown) in
  let c' := ((length hist + k) mod N)%nat in
  skipn c' w' ++ firstn c' w' = lastn (Nat.min N (length hist + k)) (hist ++ b)
  /\ (c' <= Nat.min N (length hist + k))%nat
  /\ ((length hist + k < N)%nat -> c' = (length hist + k)%nat).
Proof.
  intros HL Hk Hb Hg Hfirst fc w' c'.
  set (L := length hist) in *.
  assert (Hfck : (fc <= k)%nat) by (subst fc; lia).
  assert (HX : overwrite L (firstn fc b) grown = hist ++ firstn fc b).
  { unfold overwrite. rewrite Hfirst, skipn_all2, app_nil_r; [reflexivity|].
    rewrite length_firstn, Hg, Hb. subst fc. lia. }
  subst w'. rewrite HX. unfold overwrite. cbn [firstn app Nat.add].
  rewrite length_skipn, Hb.
  destruct (Nat.le_gt_cases (L + k) N) as [Hle|Hgt].
  - assert (Hfc : fc = k) by (subst fc; lia).
    rewrite Hfc, Nat.sub_diag, (@skipn_all2 _ k b), (@firstn_all2 _ k b) by lia.
    cbn [skipn app].
    rewrite lastn_all by (rewrite length_app; fold L; lia).
    destruct (Nat.eq_dec (L + k) N) as [Heq|Hne].
    + assert (Hc' : c' = O) by (subst c'; rewrite Heq; apply Nat.Div0.mod_same).
      rewrite Hc'. cbn [skipn firstn]. rewrite app_nil_r.
      repeat split; lia.
    + assert (Hc' : c' = (L + k)%nat) by (subst c'; apply Nat.mod_small; lia).
      rewrite Hc', skipn_all2, firstn_all2 by (rewrite length_app; fold L; lia).
      repeat split; lia.
  - assert (Hfc : fc = (N - L)%nat) by (subst fc; lia).
    assert (Hc' : c' = (L + k - N)%nat).
    { subst c'. symmetry. apply Nat.mod_unique with (q := 1%nat); lia. }
    replace (k - fc)%nat with c' by lia.
    rewrite skipn_app_r by (rewrite length_skipn; lia).
    rewrite firstn_app_l by (rewrite length_skipn; lia).
    rewrite length_skipn, Hb.
    replace (c' - (k - fc))%nat with O by lia. cbn [skipn].
    rewrite (@firstn_all2 _ c' (skipn fc b)) by (rewrite length_skipn; lia).
    rewrite <- skipn_app_l by (rewrite length_app, length_firstn; fold L; lia).
    rewrite <- app_assoc, firstn_skipn.
    unfold lastn. rewrite length_app, Hb. fold L.
    split; [f_equal; lia | split; lia].
Qed.

(** Insertion into a full buffer [w] whose unrolling from the cursor [c] on
    is [R]. *)
Lemma ring_full (N k c : nat) w b :
  length w = N -> (c < N)%nat -> (0 < k <= N)%nat -> length b = k ->
  let fc := (Nat.min (k + c) N - c)%nat in
  let w' := overwrite 0 (skipn fc b) (overwrite c (firstn fc b) w) in
  let c' := ((c + k) mod N)%nat in
  skipn c' w' ++ firstn c' w' = skipn k ((skipn c w ++ firstn c w) ++ b)
  /\ (c' < N)%nat.
Proof.
  intros Hw Hc Hk Hb fc w' c'.
  assert (Hfck : (fc <= k)%nat) by (subst fc; lia).
  assert (Hc'N : (c' < N)%nat) by (subst c'; apply Nat.mod_upper_bound; lia).
  split; [|exact Hc'N].
  subst w'. unfold overwrite. cbn [firstn app Nat.add].
  rewrite length_skipn, length_firstn, Hb.
  replace (Nat.min fc k) with fc by lia.
  destruct (Nat.le_gt_cases (c + k) N) as [Hle|Hgt].
  - assert (Hfc : fc = k) by (subst fc; lia).
    rewrite Hfc, Nat.sub_diag, (@skipn_all2 _ k b), (@firstn_all2 _ k b) by lia.
    cbn [skipn app].
    destruct (Nat.eq_dec (c + k) N) as [Heq|Hne].
    + assert (Hc' : c' = O) by (subst c'; rewrite Heq; apply Nat.Div0.mod_same).
      rewrite Hc'. cbn [skipn firstn]. rewrite app_nil_r.
      rewrite (skipn_all2 w) by lia. rewrite app_nil_r.
      rewrite <- app_assoc, skipn_app_r by (rewrite length_skipn; lia).
      rewrite length_skipn. replace (k - (length w - c))%nat with O by lia.
      reflexivity.
    + assert (Hc' : c' = (c + k)%nat) by (subst c'; apply Nat.mod_small; lia).
      rewrite Hc'.
      rewrite skipn_app_r by (rewrite length_firstn; lia).
      rewrite length_firstn. replace (c + k - Nat.min c (length w))%nat with k by lia.
      rewrite skipn_app_r by lia. rewrite Hb, Nat.sub_diag. cbn [skipn].
      rewrite firstn_app_r by (rewrite length_firstn; lia).
      rewrite length_firstn. replace (c + k - Nat.min c (length w))%nat with k by lia.
      rewrite firstn_app_l, (@firstn_all2 _ k b) by lia.
      rewrite <- !app_assoc, skipn_app_l by (rewrite length_skipn; lia).
      rewrite skipn_skipn. do 2 f_equal. lia.
  - assert (Hfc : fc = (N - c)%nat) by (subst fc; lia).
    assert (Hc' : c' = (c + k - N)%nat).
    { subst c'. symmetry. apply Nat.mod_unique with (q := 1%nat); lia. }
    replace (k - fc)%nat with c' by lia.
    rewrite (skipn_all2 w) by lia. rewrite app_nil_r.
    rewrite skipn_app_r by (rewrite length_skipn; lia).
    rewrite firstn_app_l by (rewrite length_skipn; lia).
    rewrite length_skipn, Hb.
    replace (c' - (k - fc))%nat with O by lia. cbn [skipn].
    rewrite (@firstn_all2 _ c' (skipn fc b)) by (rewrite length_skipn; lia).
    rewrite skipn_app_l by (rewrite length_firstn; lia).
    rewrite <- !app_assoc, firstn_skipn.
    rewrite skipn_app_r by (rewrite length_skipn; lia).
    rewrite length_skipn, skipn_app_l by (rewrite length_firstn; lia).
    do 2 f_equal. lia.
Qed.

End Ring.

(** ** Runs of the operator over a list of batches *)

Section Sequence.

Context {A : Type}.
Variable head_nonnull : list A -> bool.
Variable uninit : nat -> A.
Variable N : Z.
Variable inner : list Z.

Implicit Types (p q : list (Tensor A)) (b : Tensor A) (s : Blobs A).

Lemma offered_snoc p b : offered (p ++ [b]) = offered p ++ rows b.
Proof.
  unfold offered. rewrite map_app, concat_app. simpl. now rewrite app_nil_r.
Qed.

Lemma offered_app p q : offered (p ++ q) = offered p ++ offered q.
Proof. unfold offered. now rewrite map_app, concat_app. Qed.

Lemma offered_items_app p q :
  offered_items (p ++ q) = offered_items p ++ offered_items q.
Proof. unfold offered_items. now rewrite map_app, concat_app. Qed.

Lemma since_oversized_snoc p b :
  since_oversized N (p ++ [b])
  = if N <? dim b 0 then 0 else since_oversized N p + dim b 0.
Proof. unfold since_oversized. now rewrite fold_left_app. Qed.

Lemma offered_concat p :
  Forall (fun b => batch_ok inner (num_rows b) b) p ->
  concat (offered p) = offered_items p.
Proof.
  induction 1 as [|b p Hb _ IH]; [reflexivity|].
  unfold offered, offered_items in *. simpl.
  rewrite concat_app, IH. f_equal.
  destruct Hb as (Hws & _). apply (well_shaped_items _ _ _ Hws).
Qed.

Lemma collect_all_app p q s :
  collect_all head_nonnull uninit N (p ++ q) s
  = bind (collect_all head_nonnull uninit N p)
         (fun _ => collect_all head_nonnull uninit N q) s.
Proof.
  revert s; induction p as [|b p IH]; intros s; simpl.
  - now rewrite bind_ret.
  - rewrite bind_bind. apply bind_ext. intros _ s'. apply IH.
Qed.

Lemma collect_all_snoc p b s :
  result (collect_all head_nonnull uninit N p s) = Returned true ->
  let r := collect head_nonnull uninit N b
             (final (collect_all head_nonnull uninit N p s)) in
  result (collect_all head_nonnull uninit N (p ++ [b]) s)
  = match result r with Returned _ => Returned true | o => o end
  /\ final (collect_all head_nonnull uninit N (p ++ [b]) s) = final r.
Proof.
  intros Hp r. rewrite collect_all_app. subst r.
  destruct (collect_all head_nonnull uninit N p s) as [o s1 l1] eqn:Ep.
  cbn [result final] in *. subst o.
  rewrite (bind_returned _ _ _ _ _ _ Ep). cbn [collect_all].
  destruct (collect head_nonnull uninit N b s1) as [[x| |] s2 l2] eqn:Eb.
  - now rewrite (bind_returned _ _ _ _ _ _ Eb).
  - unfold bind. now rewrite Eb.
  - unfold bind. now rewrite Eb.
Qed.

Hypothesis Hcap : capacity_ok N inner.
Hypothesis Hpos : 0 < numel inner.

(** The items that the buffer can hold, and the assumption that the test on
    the leading word of the buffer never takes storage made of them for
    uninitialised. *)
Variable pool : list A.
Hypothesis Hhead : recognised head_nonnull pool.

Lemma tracks_window_length p s :
  tracks N inner p s ->
  length (window s) = Nat.min (Z.to_nat N) (length (offered p)).
Proof.
  intros (_ & _ & Hnil & Hcons).
  destruct (offered p) as [|x h] eqn:Eh.
  - destruct (Hnil eq_refl) as ((rest & Hs) & _).
    unfold window, rows, num_rows, dim. rewrite Hs. cbn.
    now rewrite Nat.min_0_r.
  - destruct Hcons as (Hws & _); [discriminate|].
    apply (well_shaped_rows_length _ _ _ Hws).
Qed.

Lemma tracks_uninitialized p s :
  tracks N inner p s -> offered p = [] -> initialized head_nonnull s = false.
Proof.
  intros (_ & _ & Hnil & _) Eh. destruct (Hnil Eh) as ((rest & Hs) & _).
  unfold initialized, output_initialized, size. rewrite Hs. reflexivity.
Qed.

Lemma tracks_initialized p s :
  tracks N inner p s ->
  Forall (fun b => batch_ok inner (num_rows b) b) p ->
  incl (offered_items p) pool ->
  offered p <> [] -> initialized head_nonnull s = true.
Proof.
  intros (_ & _ & _ & Hcons) Hp Hincl Hne.
  destruct (Hcons Hne) as (Hws & _ & _ & _ & Hrot & _).
  pose proof Hcap as (HN & _).
  assert (Hn : (0 < Nat.min (Z.to_nat N) (length (offered p)))%nat).
  { destruct (offered p); [congruence | simpl; lia]. }
  unfold initialized, output_initialized. apply andb_true_intro. split.
  - apply Z.ltb_lt. rewrite (well_shaped_size _ _ _ Hws). nia.
  - apply Hhead.
    + intros E. destruct Hws as (_ & Hlen). rewrite E in Hlen. simpl in Hlen.
      nia.
    + rewrite <- (well_shaped_items _ _ _ Hws).
      intros x Hx. apply Hincl. rewrite <- (offered_concat p Hp).
      apply in_concat in Hx. destruct Hx as (row & Hrow & Hx).
      apply in_concat. exists row. split; [|exact Hx].
      apply (incl_lastn (Nat.min (Z.to_nat N) (length (offered p)))).
      fold (window s) in Hrow. rewrite <- Hrot.
      apply (Permutation_in _ (unroll_perm _ _) Hrow).
Qed.

(** What a call finds when the blobs track the batches [p]. *)
Lemma tracks_prior p s :
  tracks N inner p s ->
  Forall (fun b => batch_ok inner (num_rows b) b) p ->
  incl (offered_items p) pool ->
  let hist := offered p in
  let n := Nat.min (Z.to_nat N) (length hist) in
  let pc := prior_cursor head_nonnull s in
  state_ok head_nonnull N inner s
  /\ prior_window head_nonnull s = window s
  /\ 0 <= pc < N
  /\ (Z.to_nat pc <= n)%nat
  /\ ((n < Z.to_nat N)%nat -> Z.to_nat pc = n)
  /\ skipn (Z.to_nat pc) (window s) ++ firstn (Z.to_nat pc) (window s)
     = lastn n hist
  /\ pc = since_oversized N p mod N
  /\ 0 <= prior_visited head_nonnull s <= Z.of_nat (length hist)
  /\ (NUM_VISITED s <> None ->
      prior_visited head_nonnull s = Z.of_nat (length hist)).
Proof.
  intros Ht Hp Hincl. cbv zeta.
  pose proof (tracks_window_length _ _ Ht) as Hwl.
  pose proof Ht as (Hnx & Hnv & Hnil & Hcons).
  pose proof Hcap as (HN & _).
  destruct (offered p) as [|x h] eqn:Eh.
  - pose proof (tracks_uninitialized _ _ Ht Eh) as Hi.
    destruct (Hnil eq_refl) as (_ & Hsince).
    assert (Hw : window s = []).
    { apply length_zero_iff_nil. rewrite Hwl. simpl. lia. }
    unfold state_ok, prior_window, prior_cursor, prior_visited.
    rewrite Hi, Hw, Hsince. cbn.
    repeat split; try lia; try congruence.
    destruct (NUM_VISITED s); tauto.
  - assert (Hne : offered p <> []) by (rewrite Eh; discriminate).
    pose proof (tracks_initialized _ _ Ht Hp Hincl Hne) as Hi.
    destruct Hcons as (Hws & Hc & Hcn & Hcfill & Hrot & Hsince); [discriminate|].
    set (n := Nat.min (Z.to_nat N) (length (x :: h))) in *.
    assert (Hv : 0 <= prior_visited head_nonnull s <= Z.of_nat (length (x :: h))
                 /\ (NUM_VISITED s <> None ->
                     prior_visited head_nonnull s = Z.of_nat (length (x :: h)))).
    { unfold prior_visited. rewrite Hi. destruct (NUM_VISITED s) as [t|].
      - destruct Hnv as (_ & Hval). rewrite Hval; [lia|].
        intros ->. now rewrite Eh in Hne.
      - split; [lia | congruence]. }
    pose proof (well_shaped_dim0 _ _ _ Hws) as Hd0.
    assert (Hok : state_ok head_nonnull N inner s).
    { split; [exact Hnx|]. split; [destruct (NUM_VISITED s); tauto|].
      intros _. rewrite (well_shaped_num_rows _ _ _ Hws).
      unfold window_length. rewrite Hd0.
      split; [exact Hws|]. repeat split; try lia; apply Hv. }
    unfold prior_window, prior_cursor. rewrite Hi.
    split; [exact Hok|]. split; [reflexivity|]. split; [exact Hc|].
    split; [exact Hcn|]. split; [exact Hcfill|]. split; [exact Hrot|].
    split; [exact Hsince|]. exact Hv.
Qed.

Lemma mod_to_nat (a b : Z) :
  0 <= a -> 0 < b -> Z.to_nat (a mod b) = (Z.to_nat a mod Z.to_nat b)%nat.
Proof.
  intros Ha Hb. rewrite <- (Z2Nat.id a) at 1 by lia.
  rewrite <- (Z2Nat.id b) at 1 by lia.
  rewrite <- Nat2Z.inj_mod. apply Nat2Z.id.
Qed.

(** One more batch. *)
Lemma tracks_step p b s :
  tracks N inner p s ->
  Forall (fun b => batch_ok inner (num_rows b) b) (p ++ [b]) ->
  incl (offered_items p) pool ->
  Z.of_nat (length (offered (p ++ [b]))) < 9223372036854775808 ->
  let r := collect head_nonnull uninit N b s in
  result r = Returned true
  /\ tracks N inner (p ++ [b]) (final r)
  /\ (NUM_VISITED (final r) = None <-> NUM_VISITED s = None).
Proof.
  intros Ht Hall Hincl Htot r.
  cut (result r = Returned true
       /\ (NUM_VISITED (final r) = None <-> NUM_VISITED s = None)
       /\ tracks N inner (p ++ [b]) (final r)); [tauto|].
  apply Forall_app in Hall. destruct Hall as (Hp & Hb).
  apply Forall_inv in Hb.
  destruct (tracks_prior _ _ Ht Hp Hincl)
    as (Hok & Hpw & Hpc & Hpcn & Hfill & Hrot & Hsince & Hpv & Hpv').
  pose proof (tracks_window_length _ _ Ht) as Hwl.
  pose proof Hcap as (HN & _).
  pose proof Hb as (Hws & _).
  pose proof (well_shaped_rows_length _ _ _ Hws) as Hrl.
  pose proof (well_shaped_dim0 _ _ _ Hws) as Hd0.
  rewrite offered_snoc, length_app, Hrl in Htot.
  set (k := num_rows b) in *.
  set (hist := offered p) in *.
  set (T := length hist) in *.
  assert (Hvis : prior_visited head_nonnull s + Z.of_nat k < 9223372036854775808)
    by lia.
  destruct (Nat.eq_dec k 0) as [Hk0|Hk0].
  - (* a batch without rows *)
    pose proof (collect_empty head_nonnull uninit N inner s b k Hok Hb Hvis Hk0)
      as Hrun.
    subst r. rewrite Hrun. cbn [result final]. split; [reflexivity|].
    split; [cbn [NUM_VISITED]; destruct (NUM_VISITED s); cbn; split; congruence|].
    assert (Hrows : rows b = []).
    { apply length_zero_iff_nil. now rewrite Hrl. }
    unfold tracks. rewrite offered_snoc, Hrows, app_nil_r. fold hist T.
    rewrite since_oversized_snoc, Hd0, Hk0.
    replace (N <? Z.of_nat 0) with false by (symmetry; apply Z.ltb_ge; lia).
    cbn [Z.of_nat]. rewrite !Z.add_0_r.
    unfold cursor, window. cbn [LAST_N NEXT NUM_VISITED].
    pose proof Ht as (Hnx & Hnv & Hnil & Hcons). fold hist T in Hnv, Hnil, Hcons.
    split; [exact Hnx|]. split; [|split].
    + destruct (NUM_VISITED s) as [t|]; cbn [option_map s_size s_sizes s_value];
        [|exact I].
      split; [apply Hnv|]. intros _. apply Hpv'. discriminate.
    + intros Eh. pose proof (tracks_uninitialized _ _ Ht Eh) as Hi.
      unfold initialized in Hi. rewrite Hi.
      split; [|apply Hnil, Eh].
      exists inner. destruct Hws as (Hs & _). rewrite Hs, Hk0. reflexivity.
    + intros Hne. pose proof (tracks_initialized _ _ Ht Hp Hincl Hne) as Hi.
      unfold initialized in Hi. rewrite Hi.
      apply Hcons, Hne.
  - (* a batch with rows *)
    destruct (collect_step head_nonnull uninit N inner Hcap s b k Hok Hb Hvis)
      as (Hres & Hshape & Hnx' & Hnv' & Hover & Hcirc); [lia|].
    fold r in Hres, Hshape, Hnx', Hnv', Hover, Hcirc.
    split; [exact Hres|].
    split; [rewrite Hnv'; destruct (NUM_VISITED s); cbn; split; congruence|].
    rewrite Hpw, Hwl in Hshape, Hcirc. fold hist T in Hshape, Hcirc.
    assert (Hne' : hist ++ rows b <> []).
    { intros E. apply (f_equal (@length _)) in E.
      rewrite length_app, Hrl in E. simpl in E. lia. }
    set (Nn := Z.to_nat N) in *.
    assert (Hn' : Nat.min Nn (Nat.min Nn T + Nat.min k Nn) = Nat.min Nn (T + k))
      by lia.
    rewrite Hn' in Hshape, Hcirc.
    unfold tracks. rewrite offered_snoc, length_app, Hrl. fold hist T Nn.
    rewrite since_oversized_snoc, Hd0.
    split; [exact Hnx'|]. split; [|split; [tauto|intros _]].
    + rewrite Hnv'. pose proof Ht as (_ & Hnv & _).
      destruct (NUM_VISITED s) as [t|];
        cbn [option_map s_size s_sizes s_value]; [|exact I].
      split; [apply Hnv|]. intros _. rewrite Hpv' by discriminate.
      lia.
    + split; [exact Hshape|].
      destruct (Z.ltb_spec N (Z.of_nat k)) as [Hbig|Hsmall].
      * (* more rows than the capacity *)
        destruct (Hover Hbig) as (Hw' & Hc'). rewrite Hc', Hw'. fold Nn.
        replace (Nat.min Nn (T + k)) with Nn by lia.
        cbn [Z.to_nat skipn firstn]. rewrite app_nil_r.
        rewrite lastn_app_long by lia.
        repeat split; lia.
      * (* at most as many rows as the capacity *)
        destruct (Hcirc Hsmall) as (grown & Hgl & Hgf & Hw' & Hc').
        rewrite Hw', Hc'.
        assert (Hcmod : Z.to_nat ((prior_cursor head_nonnull s + Z.of_nat k) mod N)
                        = ((Z.to_nat (prior_cursor head_nonnull s) + k) mod Nn)%nat).
        { rewrite mod_to_nat by lia. subst Nn. f_equal. lia. }
        rewrite Hcmod.
        assert (Hsince' : (prior_cursor head_nonnull s + Z.of_nat k) mod N
                          = (since_oversized N p + Z.of_nat k) mod N).
        { rewrite Hsince. apply Z.add_mod_idemp_l. lia. }
        split; [apply Z.mod_pos_bound; lia|].
        destruct (Nat.lt_ge_cases T Nn) as [Hnotfull|Hfull].
        -- (* the buffer is not full *)
           assert (Hst : Z.to_nat (prior_cursor head_nonnull s) = T)
             by (rewrite Hfill; lia).
           assert (Hwh : window s = hist).
           { rewrite Hst in Hrot.
             rewrite skipn_all2, firstn_all2 in Hrot by lia.
             rewrite lastn_all in Hrot by lia. exact Hrot. }
           rewrite Hst in *. rewrite Hwh in Hgf.
           replace (Nat.min Nn T) with T in Hgf by lia.
           destruct (ring_fill Nn k hist (rows b) grown)
             as (Hrot' & Hle' & Hfill'); try assumption; try lia.
           change (length hist) with T in Hrot', Hle', Hfill'.
           split; [exact Hle'|].
           split; [intros H; rewrite Hfill'; lia|].
           split; [exact Hrot' | exact Hsince'].
        -- (* the buffer is full *)
           replace (Nat.min Nn T) with Nn in * by lia.
           replace (Nat.min Nn (T + k)) with Nn in * by lia.
           assert (Hgw : grown = window s).
           { rewrite <- Hgf. symmetry. apply firstn_all2. lia. }
           rewrite Hgw.
           destruct (ring_full Nn k (Z.to_nat (prior_cursor head_nonnull s))
                       (window s) (rows b))
             as (Hrot' & Hlt'); try assumption; try lia.
           split; [lia|]. split; [lia|].
           split; [|exact Hsince'].
           rewrite Hrot', Hrot, <- Hrl.
           symmetry. apply lastn_app_short; lia.
Qed.

Variable batches : list (Tensor A).
Hypothesis Hall : Forall (fun b => batch_ok inner (num_rows b) b) batches.
Hypothesis Hpool : incl (offered_items batches) pool.
Hypothesis Htotal : Z.of_nat (length (offered batches)) < 9223372036854775808.

Variable cursor0 : Z.
Variable visited0 : option Z.

Let after (p : list (Tensor A)) : run A bool :=
  collect_all head_nonnull uninit N p (fresh cursor0 visited0).

(** Every run over a prefix of the batches returns, and the blobs track the
    prefix. *)
Lemma run_tracks p q :
  batches = p ++ q ->
  result (after p) = Returned true
  /\ tracks N inner p (final (after p))
  /\ (NUM_VISITED (final (after p)) = None <-> visited0 = None).
Proof.
  revert q. induction p as [|b p IH] using rev_ind; intros q Hpq.
  - subst after. cbn [collect_all]. unfold ret. cbn [result final].
    split; [reflexivity|]. split.
    + unfold tracks, fresh. cbn.
      split; [reflexivity|]. split.
      * destruct visited0; cbn; [|exact I]. split; [reflexivity|congruence].
      * split; [|congruence]. intros _. split; [now exists []|reflexivity].
    + unfold fresh. cbn. destruct visited0; cbn; split; congruence.
  - rewrite <- app_assoc in Hpq. cbn [app] in Hpq.
    destruct (IH _ Hpq) as (Hres & Ht & Hnone).
    destruct (collect_all_snoc p b _ Hres) as (Hres' & Hfin').
    fold (after p) (after (p ++ [b])) in Hres', Hfin'.
    assert (Hstep : Forall (fun b => batch_ok inner (num_rows b) b) (p ++ [b])).
    { rewrite Hpq in Hall. apply Forall_app in Hall. destruct Hall as (Hp & Hq).
      apply Forall_app. split; [exact Hp|].
      constructor; [exact (Forall_inv Hq) | constructor]. }
    assert (Hin : incl (offered_items p) pool).
    { intros x Hx. apply Hpool. rewrite Hpq, offered_items_app.
      apply in_or_app. now left. }
    assert (Hlen : Z.of_nat (length (offered (p ++ [b]))) < 9223372036854775808).
    { rewrite Hpq in Htotal.
      replace (p ++ b :: q) with ((p ++ [b]) ++ q) in Htotal
        by (rewrite <- app_assoc; reflexivity).
      rewrite (offered_app (p ++ [b]) q), length_app in Htotal. lia. }
    destruct (tracks_step p b _ Ht Hstep Hin Hlen) as (Hr & Ht' & Hnone').
    rewrite Hfin', Hres', Hr. split; [reflexivity|]. split; [exact Ht'|].
    rewrite Hnone'. exact Hnone.
Qed.

Lemma tracks_dim0 p s :
  tracks N inner p s ->
  window_length s = Z.min N (Z.of_nat (length (offered p))).
Proof.
  intros (_ & _ & Hnil & Hcons). pose proof Hcap as (HN & _).
  unfold window_length. destruct (offered p) as [|x h] eqn:Eh.
  - destruct (Hnil eq_refl) as ((rest & Hs) & _). unfold dim. rewrite Hs.
    simpl. lia.
  - destruct Hcons as (Hws & _); [discriminate|].
    rewrite (well_shaped_dim0 _ _ _ Hws). lia.
Qed.

(** Where the test on the leading word of the buffer takes no buffer with
    rows for uninitialised, for batches of one record shape with at least one
    item per record and fewer than [2^31] rows each: after
    the batches were collected, starting from the empty buffer, the rows in
    the buffer are, as a multiset, the last [min numToCollect T] rows
    offered, [T] being the number of rows offered. *)
Theorem window_holds_last_rows :
  let r := collect_all head_nonnull uninit N batches (fresh cursor0 visited0) in
  let T := length (offered batches) in
  result r = Returned true
  /\ Permutation (window (final r))
       (lastn (Nat.min (Z.to_nat N) T) (offered batches)).
Proof.
  cbv zeta. destruct (run_tracks batches [] (eq_sym (app_nil_r _)))
    as (Hres & Ht & _).
  fold (after batches). split; [exact Hres|].
  pose proof (tracks_window_length _ _ Ht) as Hwl.
  destruct Ht as (_ & _ & _ & Hcons).
  destruct (offered batches) as [|x h] eqn:Eh.
  - simpl in Hwl. rewrite Nat.min_0_r in Hwl.
    apply length_zero_iff_nil in Hwl. rewrite Hwl. simpl.
    rewrite Nat.min_0_r. constructor.
  - destruct Hcons as (_ & _ & _ & _ & Hrot & _); [discriminate|].
    rewrite <- Hrot. apply unroll_perm.
Qed.

(** X17: under the same conditions, after each call the length of the buffer
    is the minimum of the capacity and of the number of rows offered so far,
    hence never more than the capacity, and once it is the capacity it stays
    so. *)
Theorem window_length_is_min p q :
  batches = p ++ q ->
  let len := fun l =>
    window_length
      (final (collect_all head_nonnull uninit N l (fresh cursor0 visited0))) in
  len p = Z.min N (Z.of_nat (length (offered p)))
  /\ len p <= N
  /\ (len p = N -> len batches = N).
Proof.
  intros Hpq len. subst len. cbv beta.
  destruct (run_tracks p q Hpq) as (_ & Ht & _).
  destruct (run_tracks batches [] (eq_sym (app_nil_r _))) as (_ & Htb & _).
  fold (after p) (after batches).
  rewrite (tracks_dim0 _ _ Ht), (tracks_dim0 _ _ Htb).
  rewrite Hpq, offered_app, length_app. lia.
Qed.

(** C3, as the code has it: the path for a batch of more rows than the
    capacity sets the cursor to zero, so that, when the buffer is full, the
    cursor is the number of rows offered since the last such batch, modulo
    the capacity. *)
Theorem cursor_when_full :
  let r := collect_all head_nonnull uninit N batches (fresh cursor0 visited0) in
  window_length (final r) = N ->
  cursor (final r) = since_oversized N batches mod N.
Proof.
  cbv zeta. destruct (run_tracks batches [] (eq_sym (app_nil_r _)))
    as (_ & Ht & _).
  fold (after batches). intros Hfull. pose proof Hcap as (HN & _).
  rewrite (tracks_dim0 _ _ Ht) in Hfull.
  destruct Ht as (_ & _ & _ & Hcons).
  destruct (offered batches) as [|x h] eqn:Eh; [simpl in Hfull; lia|].
  now destruct Hcons as (_ & _ & _ & _ & _ & Hsince); [discriminate|].
Qed.

(** X18: under the same conditions and with a counter among the blobs, after
    each call the counter is the number of rows offered so far; so each call
    after the first adds the number of rows of its batch, and the first
    sets the counter to it. *)
Theorem visited_counts_offered p q :
  batches = p ++ q -> p <> [] -> visited0 <> None ->
  visited (final (collect_all head_nonnull uninit N p (fresh cursor0 visited0)))
  = Some (Z.of_nat (length (offered p)))
  /\ (forall b q', q = b :: q' ->
        visited (final (collect_all head_nonnull uninit N (p ++ [b])
                          (fresh cursor0 visited0)))
        = Some (Z.of_nat (length (offered p)) + dim b 0)).
Proof.
  intros Hpq Hp Hv0.
  assert (Hgen : forall p' q', batches = p' ++ q' -> p' <> [] ->
            visited (final (after p')) = Some (Z.of_nat (length (offered p')))).
  { intros p' q' Hpq' Hp'.
    destruct (run_tracks p' q' Hpq') as (_ & (_ & Hnv & _) & Hnone).
    unfold visited. destruct (NUM_VISITED (final (after p'))) as [t|].
    - cbn. f_equal. now apply Hnv.
    - exfalso. apply Hv0. now apply Hnone. }
  fold (after p). split; [exact (Hgen p q Hpq Hp)|].
  intros b q' Hq. subst q. fold (after (p ++ [b])).
  rewrite (Hgen (p ++ [b]) q').
  - rewrite offered_snoc, length_app, Nat2Z.inj_add. do 2 f_equal.
    rewrite Hpq in Hall. apply Forall_app in Hall. destruct Hall as (_ & Hq).
    apply Forall_inv in Hq. destruct Hq as (Hws & _).
    rewrite (well_shaped_dim0 _ _ _ Hws). f_equal.
    rewrite (well_shaped_rows_length _ _ _ Hws). reflexivity.
  - rewrite Hpq, <- app_assoc. reflexivity.
  - intros E. now destruct p.
Qed.

(** X1: the buffer read from the cursor on, around its end, gives the last
    [min numToCollect T] rows offered in the order of their arrival: the
    oldest row that is kept is in the slot of the cursor. *)
Theorem window_unrolls_in_arrival_order :
  let r := collect_all head_nonnull uninit N batches (fresh cursor0 visited0) in
  let T := length (offered batches) in
  let c := Z.to_nat (cursor (final r)) in
  skipn c (window (final r)) ++ firstn c (window (final r))
  = lastn (Nat.min (Z.to_nat N) T) (offered batches).
Proof.
  cbv zeta. destruct (run_tracks batches [] (eq_sym (app_nil_r _)))
    as (_ & Ht & _).
  fold (after batches).
  pose proof (tracks_window_length _ _ Ht) as Hwl.
  destruct Ht as (_ & _ & _ & Hcons).
  destruct (offered batches) as [|x h] eqn:Eh.
  - simpl in Hwl. rewrite Nat.min_0_r in Hwl.
    apply length_zero_iff_nil in Hwl. rewrite Hwl.
    now rewrite skipn_nil, firstn_nil, Nat.min_0_r.
  - now destruct Hcons as (_ & _ & _ & _ & Hrot & _); [discriminate|].
Qed.

(** X2: once a row was offered, the cursor is a slot of the buffer's
    capacity, and as long as the buffer has fewer rows than its capacity the
    cursor is the number of its rows. *)
Theorem cursor_is_fill_level_until_full :
  offered batches <> [] ->
  let r := collect_all head_nonnull uninit N batches (fresh cursor0 visited0) in
  0 <= cursor (final r) < N
  /\ cursor (final r) <= window_length (final r)
  /\ (window_length (final r) < N -> cursor (final r) = window_length (final r)).
Proof.
  intros Hne. cbv zeta.
  destruct (run_tracks batches [] (eq_sym (app_nil_r _))) as (_ & Ht & _).
  fold (after batches). pose proof Hcap as (HN & _).
  destruct Ht as (_ & _ & _ & Hcons).
  destruct (Hcons Hne) as (Hws & Hc & Hcn & Hfill & _).
  unfold window_length. rewrite (well_shaped_dim0 _ _ _ Hws).
  split; [exact Hc|]. split; [lia|].
  intros Hlt. rewrite <- Hfill; lia.
Qed.

End Sequence.

(** ** Calls that throw

    The checks on the batch and on NUM_VISITED come before anything is
    written.  The checks on NEXT come after the count was updated and the
    buffer reset and grown. *)

Section Failures.

Context {A : Type}.
Variable head_nonnull : list A -> bool.
Variable uninit : nat -> A.
Variable N : Z.

Lemma bind_for_each_enforce {Y} (l : list nat) (f : nat -> bool)
      (e : nat -> enforce_site) (K : unit -> M A Y) (s : Blobs A) :
  bind (for_each A l (fun i => enforce A (f i) (e i))) K s
  = match find (fun i => negb (f i)) l with
    | Some i => mkRun (Thrown (e i)) s []
    | None => K tt s
    end.
Proof.
  induction l as [|i l IH]; cbn [for_each find].
  - apply bind_ret.
  - rewrite bind_bind, bind_enforce. destruct (f i); cbn [negb]; [exact IH|reflexivity].
Qed.

Lemma result_emit {X} (l : list event) (r : run A X) : result (emit l r) = result r.
Proof. reflexivity. Qed.

Lemma bind_when_with_output {Y} (c : bool) (f : Tensor A -> Tensor A)
      (K : unit -> M A Y) (s : Blobs A) :
  bind (when A c (with_output A f)) K s
  = K tt (mkBlobs (if c then f (LAST_N s) else LAST_N s) (NEXT s) (NUM_VISITED s)).
Proof.
  rewrite bind_when. destruct c; [apply bind_with_output | now destruct s].
Qed.

Ltac leaf :=
  let H := fresh in
  intros H; cbv beta in H; unfold ret in H; cbn [result final emit] in *;
  first [ discriminate H
        | injection H as <-; cbn [result final emit]; try reflexivity ].

Ltac next_leaf Hk :=
  let H := fresh in
  intros H; cbn [result final emit] in *; injection H as <-;
  cbn [result final emit LAST_N NEXT];
  split; [exact Hk|]; split; [reflexivity|]; split; [reflexivity|];
  split;
  [ unfold window_length; cbn [LAST_N];
    match goal with |- context [if ?c then _ else _] => destruct c end;
    reflexivity
  | split; [reflexivity|];
    let Hinit := fresh in
    intros Hinit;
    first
      [ discriminate Hinit
      | split; [reflexivity|]; cbn [LAST_N];
        match goal with |- context [if ?c then _ else _] => destruct c end;
        [ unfold ExtendTo; cbn [items];
          rewrite firstn_app, Nat.sub_diag, firstn_all, firstn_O, app_nil_r;
          reflexivity
        | apply firstn_all ] ] ].


End Failures.

(** ** Calls on any blobs

    What holds of a call without a condition on the blobs or on the batch. *)

Section AnyCall.

Context {A : Type}.
Variable head_nonnull : list A -> bool.
Variable uninit : nat -> A.
Variable N : Z.

(** The checks on the trailing dimensions pass only for equal ones. *)
Lemma trailing_dims_equal (o input : Tensor A) :
  ndim o = ndim input ->
  find (fun i => negb (dim o i =? dim input i))
       (seq 1 (length (sizes input) - 1)) = None ->
  tl (sizes o) = tl (sizes input).
Proof.
  unfold ndim, dim. intros Hn Hfind.
  destruct (sizes o) as [|a so], (sizes input) as [|b si];
    cbn [length tl] in *; try lia; try reflexivity.
  replace (S (length si) - 1)%nat with (length si) in Hfind by lia.
  apply (nth_ext _ _ 0 0); [lia|].
  intros j Hj.
  pose proof (find_none _ _ Hfind (S j)) as H. cbv beta in H. cbn [nth] in H.
  apply Z.eqb_eq, negb_false_iff, H, in_seq. lia.
Qed.

(** X10: a batch whose record shape is not that of a buffer that passes for
    initialised is refused: the call throws at the check of the rank of the
    batch, of the rank of the buffer or of one of the trailing dimensions,
    and the blobs are what they were. *)
Theorem shape_mismatch_is_refused (st : Blobs A) (input : Tensor A) :
  initialized head_nonnull st = true ->
  tl (sizes input) <> tl (sizes (LAST_N st)) ->
  exists e,
    collect head_nonnull uninit N input st = mkRun (Thrown e) st []
    /\ (e = EnforceInputRank \/ e = EnforceOutputRank
        \/ exists i, e = EnforceOutputDim i).
Proof.
  intros Hi Hne. unfold collect. rewrite bind_gets. cbv beta zeta.
  unfold initialized in Hi. rewrite Hi.
  rewrite bind_enforce. destruct (1 <=? ndim input); [|eauto].
  rewrite bind_when, bind_bind, bind_enforce.
  destruct (Z.eqb_spec (ndim (LAST_N st)) (ndim input)) as [Hn|Hn]; [|eauto].
  rewrite bind_for_each_enforce.
  destruct (find _ _) as [i|] eqn:Hfind; [eauto 6|].
  exfalso. apply Hne. symmetry. now apply trailing_dims_equal.
Qed.

Ltac thrown :=
  let H := fresh in
  intros H; cbn [result final emit] in H; discriminate H.

Ltac returned :=
  let H := fresh in
  intros H; unfold ret in *; cbn [result final emit] in *;
  injection H as <-;
  cbn [LAST_N NEXT NUM_VISITED option_map s_value s_sizes sizes];
  repeat split;
  try match goal with |- context [if ?c then _ else _] => destruct c end;
  unfold ExtendTo, Resize, CopyFrom; cbn [sizes tl];
  first [ reflexivity | assumption ].

(** The ways in which a call returns. *)
Lemma returned_call (st : Blobs A) (input : Tensor A) (b : bool) :
  let r := collect head_nonnull uninit N input st in
  result r = Returned b ->
  b = true
  /\ tl (sizes (LAST_N (final r))) = tl (sizes input)
  /\ visited (final r)
     = option_map
         (fun _ => to_int64 (prior_visited head_nonnull st + dim input 0))
         (NUM_VISITED st)
  /\ s_sizes (NEXT (final r)) = s_sizes (NEXT st).
Proof.
  intros r. subst r. unfold collect. rewrite bind_gets. cbv beta zeta.
  unfold prior_visited, initialized, visited.
  destruct st as [o nx nv]. cbn [LAST_N NEXT NUM_VISITED].
  rewrite bind_enforce. destruct (1 <=? ndim input); [|thrown].
  rewrite bind_when.
  destruct nv as [t|]; destruct (output_initialized head_nonnull o) eqn:Hi;
    cbn [negb]; cbv iota.
  all: try (rewrite bind_bind, bind_enforce;
            destruct (Z.eqb_spec (ndim o) (ndim input)) as [Hn|Hn]; [|thrown];
            rewrite bind_for_each_enforce;
            destruct (find _ _) eqn:Hfind; [thrown|];
            pose proof (trailing_dims_equal _ _ Hn Hfind) as Htl).
  all: rewrite bind_gets; cbn [NUM_VISITED].
  all: try (rewrite bind_bind, bind_enforce; destruct (1 =? s_size t); [|thrown];
            rewrite bind_bind, bind_when; cbv iota;
            rewrite ?bind_store_visited; cbn [LAST_N NEXT NUM_VISITED option_map];
            rewrite bind_bind, bind_load_visited; cbn [NUM_VISITED s_value];
            rewrite bind_bind, bind_enforce;
            first [ progress change (0 <=? 0) with true; cbv iota
                  | destruct (0 <=? s_value t); [|thrown] ];
            rewrite bind_store_visited;
            cbn [LAST_N NEXT NUM_VISITED option_map s_sizes]).
  all: rewrite ?bind_ret.
  all: rewrite bind_when; cbv iota; rewrite ?bind_with_output;
    cbn [LAST_N NEXT NUM_VISITED].
  all: destruct (dim input 0 =? 0) eqn:Hk;
    [rewrite bind_when; cbv iota; rewrite ?bind_with_output; returned|].
  all: rewrite bind_gets, bind_when_with_output; cbn [LAST_N NEXT NUM_VISITED].
  all: rewrite bind_gets, bind_enforce; cbn [NEXT].
  all: destruct (0 =? s_ndim nx); [|thrown].
  all: rewrite bind_when; cbv iota; rewrite ?bind_store_next;
    cbn [LAST_N NEXT NUM_VISITED s_sizes s_value].
  all: rewrite bind_gets, bind_gets, bind_enforce;
    cbn [LAST_N NEXT NUM_VISITED s_sizes s_value].
  all: match goal with
       | |- context [if ?c then _ else {| result := Thrown EnforceNextRange;
                                         final := _; issued := _ |}] =>
           destruct c
       end; [|thrown].
  all: destruct (N <? dim input 0);
    rewrite bind_CopyItemsSameDevice;
    (destruct (copy_items _ _ _ _ _); [|thrown]).
  all: try (rewrite bind_store_next; unfold emit; returned).
  all: rewrite bind_CopyItemsSameDevice;
    (destruct (copy_items _ _ _ _ _); [|thrown]).
  all: rewrite bind_store_next; unfold emit; returned.
Qed.

(** X11: after a call that returns, the record shape of the buffer (its
    dimensions but the first) is that of the batch, whatever the blobs were
    before the call. *)
Theorem record_shape_follows_batch (st : Blobs A) (input : Tensor A) (b : bool) :
  let r := collect head_nonnull uninit N input st in
  result r = Returned b ->
  tl (sizes (LAST_N (final r))) = tl (sizes input).
Proof. intros r H. apply (returned_call st input b H). Qed.

(** X12: a call that returns has added the number of rows of its batch to
    the counter, with the wrap-around of [int64_t], starting from the
    counter's value when the buffer passed for initialised and from zero when
    it did not; without a counter there is none afterwards. *)
Theorem returned_call_counts_batch (st : Blobs A) (input : Tensor A) (b : bool) :
  let r := collect head_nonnull uninit N input st in
  result r = Returned b ->
  visited (final r)
  = option_map
      (fun _ => to_int64 (prior_visited head_nonnull st + dim input 0))
      (NUM_VISITED st).
Proof. intros r H. apply (returned_call st input b H). Qed.


(** The call on a buffer that does not pass for initialised, up to the reset
    of the buffer; [rest] is what follows. *)
Lemma unrecognised_run (input : Tensor A) :
  exists rest : Blobs A -> run A bool,
    forall st, initialized head_nonnull st = false ->
      collect head_nonnull uninit N input st
      = if 1 <=? ndim input then
          match NUM_VISITED st with
          | Some t =>
              if 1 =? s_size t then
                rest (mkBlobs (mkTensor (0 :: tl (sizes input)) []) (NEXT st)
                        (Some (mkScalar (s_sizes t)
                                 (to_int64 (0 + dim input 0)))))
              else mkRun (Thrown EnforceVisitedSize) st []
          | None =>
              rest (mkBlobs (mkTensor (0 :: tl (sizes input)) []) (NEXT st) None)
          end
        else mkRun (Thrown EnforceInputRank) st [].
Proof.
  eexists. intros [o nx nv] Hi. unfold initialized in Hi. cbn [LAST_N] in Hi.
  unfold collect. rewrite bind_gets. cbv beta zeta. cbn [LAST_N NEXT NUM_VISITED].
  rewrite Hi, bind_enforce. destruct (1 <=? ndim input); [|reflexivity].
  rewrite bind_when, bind_gets. cbn [NUM_VISITED negb].
  destruct nv as [t|].
  - rewrite bind_bind, bind_enforce. destruct (1 =? s_size t); [|reflexivity].
    rewrite bind_bind, bind_when, bind_store_visited.
    cbn [LAST_N NEXT NUM_VISITED option_map].
    rewrite bind_bind, bind_load_visited. cbn [NUM_VISITED s_value].
    rewrite bind_bind, bind_enforce. change (0 <=? 0) with true. cbv iota.
    rewrite bind_store_visited. cbn [LAST_N NEXT NUM_VISITED option_map s_sizes].
    rewrite bind_when, bind_with_output. cbn [LAST_N NEXT NUM_VISITED].
    unfold Resize. cbn [numel fold_right Z.mul Z.to_nat firstn].
    match goal with |- ?f ?S = _ => instantiate (1 := f) end.
    reflexivity.
  - rewrite bind_ret, bind_when, bind_with_output. cbn [LAST_N NEXT NUM_VISITED].
    unfold Resize. cbn [numel fold_right Z.mul Z.to_nat firstn].
    reflexivity.
Qed.

(** X14: a buffer that does not pass for initialised is discarded: the call
    has the result, issues the calls and leaves the cursor and the counter
    that it would on an empty buffer, and when it returns it leaves the same
    blobs. *)
Theorem unrecognised_buffer_is_discarded (st : Blobs A) (input : Tensor A) :
  initialized head_nonnull st = false ->
  let r := collect head_nonnull uninit N input st in
  let r0 := collect head_nonnull uninit N input
              (mkBlobs (mkTensor [0] []) (NEXT st) (NUM_VISITED st)) in
  result r = result r0
  /\ issued r = issued r0
  /\ NEXT (final r) = NEXT (final r0)
  /\ NUM_VISITED (final r) = NUM_VISITED (final r0)
  /\ (forall b, result r = Returned b -> final r = final r0).
Proof.
  intros Hi r r0. destruct (unrecognised_run input) as (rest & Hrun).
  assert (Hi0 : initialized head_nonnull
                 (mkBlobs (mkTensor [0] []) (NEXT st) (NUM_VISITED st)) = false)
    by reflexivity.
  subst r r0. rewrite (Hrun st Hi), (Hrun _ Hi0).
  destruct st as [o nx nv]. cbn [LAST_N NEXT NUM_VISITED].
  destruct (1 <=? ndim input); [destruct nv as [t|];
                                [destruct (1 =? s_size t)|]|].
  all: split; [|split; [|split; [|split]]]; try reflexivity.
  all: intros b Hb; discriminate Hb.
Qed.

End AnyCall.

(** ** The conditions on the blobs as an invariant *)

Section Invariant.

Context {A : Type}.
Variable head_nonnull : list A -> bool.
Variable uninit : nat -> A.
Variable N : Z.
Variable inner : list Z.
Hypothesis Hcap : capacity_ok N inner.

(** X5: the conditions on the blobs are an invariant: from blobs that meet
    them, every list of well-shaped batches is collected without an
    exception and without a copy outside of a buffer, and the blobs meet the
    conditions afterwards. *)
Theorem data_model_is_kept (batches : list (Tensor A)) (st : Blobs A) :
  state_ok head_nonnull N inner st ->
  Forall (fun b => batch_ok inner (num_rows b) b) batches ->
  prior_visited head_nonnull st + Z.of_nat (length (offered batches))
  < 9223372036854775808 ->
  let r := collect_all head_nonnull uninit N batches st in
  result r = Returned true /\ state_ok head_nonnull N inner (final r).
Proof.
  intros Hst Hall. revert st Hst.
  induction Hall as [|b rest Hb _ IH]; intros st Hst Hv; cbv zeta.
  - split; [reflexivity | exact Hst].
  - pose proof (well_shaped_rows_length _ _ _ (proj1 Hb)) as Hrl.
    unfold offered in Hv. cbn [map concat] in Hv.
    rewrite length_app, Hrl, Nat2Z.inj_add in Hv. fold (offered rest) in Hv.
    assert (Hlen : 0 <= Z.of_nat (length (offered rest))) by lia.
    destruct (collect_keeps_state_ok head_nonnull uninit N inner Hcap st b
                (num_rows b) Hst Hb) as (Hres & Hok & Hle); [lia|].
    cbn [collect_all].
    destruct (collect head_nonnull uninit N b st) as [o s1 l1] eqn:Eb.
    cbn [result final] in Hres, Hok, Hle. subst o.
    rewrite (bind_returned _ _ _ _ _ _ Eb). cbn [result final emit].
    apply IH; [exact Hok | lia].
Qed.

End Invariant.

(** ** What the blobs depend on *)

Section Determined.

Context {A : Type}.
Variable head_nonnull : list A -> bool.
Variable N : Z.
Variable inner : list Z.
Hypothesis Hcap : capacity_ok N inner.
Hypothesis Hpos : 0 < numel inner.
Variable pool : list A.
Hypothesis Hhead : recognised head_nonnull pool.

Lemma app_inj_length {X} (l1 l2 m1 m2 : list X) :
  length l1 = length l2 -> l1 ++ m1 = l2 ++ m2 -> l1 = l2 /\ m1 = m2.
Proof.
  revert l2; induction l1 as [|x l1 IH]; intros [|y l2] Hlen Heq;
    simpl in *; try discriminate; [auto|].
  injection Heq as -> Heq. destruct (IH l2) as (-> & ->); auto.
Qed.

(** A ring is known by its unrolling from one slot on. *)
Lemma unroll_inj {X} (c : nat) (w w' : list X) :
  length w = length w' ->
  skipn c w ++ firstn c w = skipn c w' ++ firstn c w' ->
  w = w'.
Proof.
  intros Hlen Heq.
  destruct (app_inj_length _ _ _ _ (eq_trans (length_skipn c w)
              (eq_trans (f_equal (fun n => (n - c)%nat) Hlen)
                        (eq_sym (length_skipn c w')))) Heq) as (Hs & Hf).
  rewrite <- (firstn_skipn c w), <- (firstn_skipn c w'). now rewrite Hs, Hf.
Qed.

(** Blobs that track batches which offer the same rows, with the same number
    of rows since the last oversized batch, are the same. *)
Lemma tracks_determine (p p' : list (Tensor A)) (s s' : Blobs A) :
  tracks N inner p s -> tracks N inner p' s' ->
  offered p = offered p' -> offered p <> [] ->
  since_oversized N p mod N = since_oversized N p' mod N ->
  (NUM_VISITED s = None <-> NUM_VISITED s' = None) ->
  LAST_N s = LAST_N s' /\ NEXT s = NEXT s' /\ visited s = visited s'.
Proof.
  intros (Hnx & Hnv & _ & Hcons) (Hnx' & Hnv' & _ & Hcons') Ho Hne Hs Hnone.
  assert (Hp : p <> []) by (intros ->; now apply Hne).
  assert (Hp' : p' <> []) by (intros ->; rewrite Ho in Hne; now apply Hne).
  rewrite <- Ho in Hnv', Hcons'.
  destruct (Hcons Hne) as (Hws & _ & _ & _ & Hrot & Hcur).
  destruct (Hcons' Hne) as (Hws' & _ & _ & _ & Hrot' & Hcur').
  assert (Hc : cursor s = cursor s') by congruence.
  rewrite <- Hc, <- Hrot in Hrot'.
  assert (Hw : window s = window s').
  { apply (unroll_inj (Z.to_nat (cursor s))); [|now symmetry].
    unfold window.
    now rewrite (well_shaped_rows_length _ _ _ Hws),
      (well_shaped_rows_length _ _ _ Hws'). }
  split; [|split].
  - pose proof (well_shaped_items _ _ _ Hws) as Hit.
    pose proof (well_shaped_items _ _ _ Hws') as Hit'.
    unfold window in Hw. rewrite Hw, Hit' in Hit.
    destruct Hws as (Hsz & _), Hws' as (Hsz' & _).
    destruct (LAST_N s) as [sz it], (LAST_N s') as [sz' it']; cbn in *.
    congruence.
  - unfold cursor in Hc.
    destruct (NEXT s) as [sz v], (NEXT s') as [sz' v']; cbn in *. congruence.
  - unfold visited.
    destruct (NUM_VISITED s) as [t|], (NUM_VISITED s') as [t'|];
      cbn [option_map]; try reflexivity.
    + destruct Hnv as (_ & Hv), Hnv' as (_ & Hv').
      now rewrite (Hv Hp), (Hv' Hp').
    + destruct Hnone as (_ & H). now discriminate H.
    + destruct Hnone as (H & _). now discriminate H.
Qed.

Lemma since_oversized_total (p : list (Tensor A)) :
  Forall (fun b => batch_ok inner (num_rows b) b) p ->
  Forall (fun b => dim b 0 <= N) p ->
  since_oversized N p = Z.of_nat (length (offered p)).
Proof.
  induction p as [|b p IH] using rev_ind; intros Hok Hle; [reflexivity|].
  apply Forall_app in Hok, Hle. destruct Hok as (Hok & Hb), Hle as (Hle & Hbl).
  apply Forall_inv in Hb, Hbl. destruct Hb as (Hws & _).
  rewrite since_oversized_snoc, offered_snoc, length_app, Nat2Z.inj_add.
  rewrite (IH Hok Hle), (well_shaped_rows_length _ _ _ Hws).
  replace (N <? dim b 0) with false by (symmetry; apply Z.ltb_ge; exact Hbl).
  now rewrite (well_shaped_dim0 _ _ _ Hws).
Qed.

(** X3: once a row was offered, nothing is left of what the blobs and the
    storage held at the start: the buffer, the cursor and the count after the
    batches are the same for any storage that [ExtendTo] exposes and any
    initial values of the cursor and of the counter. *)
Theorem initial_garbage_is_immaterial
        (uninit uninit' : nat -> A) (batches : list (Tensor A))
        (cursor0 cursor0' : Z) (visited0 visited0' : option Z) :
  Forall (fun b => batch_ok inner (num_rows b) b) batches ->
  incl (offered_items batches) pool ->
  Z.of_nat (length (offered batches)) < 9223372036854775808 ->
  offered batches <> [] ->
  (visited0 = None <-> visited0' = None) ->
  let r := collect_all head_nonnull uninit N batches (fresh cursor0 visited0) in
  let r' := collect_all head_nonnull uninit' N batches
              (fresh cursor0' visited0') in
  LAST_N (final r) = LAST_N (final r')
  /\ NEXT (final r) = NEXT (final r')
  /\ visited (final r) = visited (final r').
Proof.
  intros Hall Hpool Htot Hne Hv0 r r'.
  destruct (run_tracks head_nonnull uninit N inner Hcap Hpos pool Hhead
              batches Hall Hpool Htot cursor0 visited0 batches []
              (eq_sym (app_nil_r _))) as (_ & Ht & Hnone).
  destruct (run_tracks head_nonnull uninit' N inner Hcap Hpos pool Hhead
              batches Hall Hpool Htot cursor0' visited0' batches []
              (eq_sym (app_nil_r _))) as (_ & Ht' & Hnone').
  apply (tracks_determine batches batches); try assumption; try reflexivity.
  subst r r'. rewrite Hnone, Hnone'. exact Hv0.
Qed.

(** X4: how the rows are cut into batches does not matter, as long as no
    batch has more rows than the capacity: two lists of such batches that
    offer the same rows leave the same buffer, cursor and count. *)
Theorem batching_is_immaterial
        (uninit : nat -> A) (p p' : list (Tensor A))
        (cursor0 : Z) (visited0 : option Z) :
  Forall (fun b => batch_ok inner (num_rows b) b) p ->
  Forall (fun b => batch_ok inner (num_rows b) b) p' ->
  Forall (fun b => dim b 0 <= N) p ->
  Forall (fun b => dim b 0 <= N) p' ->
  offered p = offered p' ->
  offered p <> [] ->
  incl (offered_items p) pool ->
  Z.of_nat (length (offered p)) < 9223372036854775808 ->
  let r := collect_all head_nonnull uninit N p (fresh cursor0 visited0) in
  let r' := collect_all head_nonnull uninit N p' (fresh cursor0 visited0) in
  LAST_N (final r) = LAST_N (final r')
  /\ NEXT (final r) = NEXT (final r')
  /\ visited (final r) = visited (final r').
Proof.
  intros Hok Hok' Hle Hle' Ho Hne Hpool Htot r r'.
  assert (Hpool' : incl (offered_items p') pool).
  { rewrite <- (offered_concat inner p' Hok'), <- Ho,
      (offered_concat inner p Hok). exact Hpool. }
  assert (Htot' : Z.of_nat (length (offered p')) < 9223372036854775808)
    by (rewrite <- Ho; exact Htot).
  destruct (run_tracks head_nonnull uninit N inner Hcap Hpos pool Hhead
              p Hok Hpool Htot cursor0 visited0 p []
              (eq_sym (app_nil_r _))) as (_ & Ht & Hnone).
  destruct (run_tracks head_nonnull uninit N inner Hcap Hpos pool Hhead
              p' Hok' Hpool' Htot' cursor0 visited0 p' []
              (eq_sym (app_nil_r _))) as (_ & Ht' & Hnone').
  apply (tracks_determine p p'); try assumption.
  - now rewrite (since_oversized_total p Hok Hle),
      (since_oversized_total p' Hok' Hle'), Ho.
  - subst r r'. rewrite Hnone, Hnone'. reflexivity.
Qed.

End Determined.

(** ** The operator on rows of [int64_t] items, with a capacity of six *)

Ltac decide_if :=
  match goal with
  | |- context [if ?c then _ else _] =>
      let v := eval vm_compute in c in
      change c with v; cbv iota
  end.

(** The example of the operator's documentation. *)
Example documented_run :
  final (collect_all6 documented blank)
  = mkBlobs (vector [7; 8; 9; 10; 11; 6]) (mkScalar [] 5)
            (Some (mkScalar [1] 11)).
Proof. reflexivity. Qed.

Example after_first_run :
  collect6 (vector [1; 2; 3; 4]) blank
  = mkRun (Returned true) after_first
      [StoreNext 0; CopyItems 4 0 0; CopyItems 0 4 0; StoreNext 4].
Proof. reflexivity. Qed.

(** Rows of two items, as in the second example of the documentation. *)
Example documented_rows_of_two :
  let batches :=
    [mkTensor [4; 2] [1; 2; 2; 3; 3; 4; 4; 5];
     mkTensor [3; 2] [5; 6; 6; 7; 7; 8];
     mkTensor [4; 2] [8; 9; 9; 10; 10; 11; 11; 12]] in
  window (final (collect_all6 batches blank))
  = [[7; 8]; [8; 9]; [9; 10]; [10; 11]; [11; 12]; [6; 7]]
  /\ cursor (final (collect_all6 batches blank)) = 5.
Proof. split; reflexivity. Qed.

(** An oversized batch: the last six rows, in their order, and the cursor at
    zero. *)
Example oversized_run :
  collect6 (vector [1; 2; 3; 4; 5; 6; 7; 8; 9; 10; 11]) blank
  = mkRun (Returned true)
      (mkBlobs (vector [6; 7; 8; 9; 10; 11]) (mkScalar [] 0)
               (Some (mkScalar [1] 11)))
      [StoreNext 0; CopyItems 6 5 0; StoreNext 0].
Proof. reflexivity. Qed.

(** A buffer whose first item is zero does not pass for initialised: the
    next call starts over. *)
Example zero_headed_window_restarts :
  final (collect_all6 [vector [0; 2; 3; 4]; vector [5; 6; 7]] blank)
  = mkBlobs (vector [5; 6; 7]) (mkScalar [] 3) (Some (mkScalar [1] 3)).
Proof. reflexivity. Qed.

Lemma capacity_six : capacity_ok 6 [].
Proof. unfold capacity_ok. cbn. lia. Defined.

Lemma nonzero_recognised : recognised int64_head_nonnull nonzero_items.
Proof.
  intros [|x l] Hne Hincl; [congruence|].
  specialize (Hincl x (or_introl eq_refl)). unfold nonzero_items in Hincl.
  cbn [In] in Hincl.
  repeat (destruct Hincl as [<-|Hincl]; [reflexivity|]). destruct Hincl.
Defined.

Lemma vector_ok (l : list Z) :
  Z.of_nat (length l) < 2147483648 ->
  batch_ok [] (num_rows (vector l)) (vector l).
Proof.
  intros Hl. unfold batch_ok, well_shaped, num_rows, vector, dim. cbn.
  rewrite Nat2Z.id. repeat split; lia.
Defined.

Lemma documented_ok :
  Forall (fun b => batch_ok [] (num_rows b) b) documented.
Proof. repeat constructor; apply vector_ok; cbn; lia. Defined.

Lemma oversized_first_ok :
  Forall (fun b => batch_ok [] (num_rows b) b) oversized_first.
Proof. repeat constructor; apply vector_ok; cbn; lia. Defined.

Lemma documented_nonzero : incl (offered_items documented) nonzero_items.
Proof. cbn. unfold nonzero_items. intros x Hx. cbn in *. tauto. Defined.

Lemma oversized_first_nonzero : incl (offered_items oversized_first) nonzero_items.
Proof. apply incl_refl. Defined.

Lemma after_first_ok : state_ok int64_head_nonnull 6 [] after_first.
Proof.
  unfold state_ok. cbn. repeat split; try lia; try reflexivity.
Defined.

Lemma window_holds_last_rows_witness :
  capacity_ok 6 []
  /\ 0 < numel []
  /\ recognised int64_head_nonnull nonzero_items
  /\ Forall (fun b => batch_ok [] (num_rows b) b) documented
  /\ incl (offered_items documented) nonzero_items
  /\ Z.of_nat (length (offered documented)) < 9223372036854775808
  /\ result (collect_all6 documented blank) = Returned true
  /\ Permutation (window (final (collect_all6 documented blank)))
       [[6]; [7]; [8]; [9]; [10]; [11]].
Proof.
  assert (Hpos : 0 < numel []) by (cbn; lia).
  assert (Htot : Z.of_nat (length (offered documented)) < 9223372036854775808)
    by (vm_compute; reflexivity).
  repeat (split; [first [ exact capacity_six | exact Hpos
                        | exact nonzero_recognised | exact documented_ok
                        | exact documented_nonzero | exact Htot ]|]).
  exact (window_holds_last_rows int64_head_nonnull zeroed 6 [] capacity_six Hpos
           nonzero_items nonzero_recognised documented documented_ok
           documented_nonzero Htot 0 (Some 0)).
Defined.

(** C1 on the code, for rows without items: a buffer of such rows has no item, does
    not pass for initialised, and each call starts over.  After a batch of
    four rows and a batch of one row the buffer has one row, not five. *)
Lemma window_forgets_hollow_rows :
  ~ Permutation
      (window (final (collect_all6 [hollow 4; hollow 1] blank)))
      (lastn (Nat.min 6 (length (offered [hollow 4; hollow 1])))
             (offered [hollow 4; hollow 1])).
Proof.
  intros H. apply Permutation_length in H. vm_compute in H. discriminate H.
Qed.

Lemma window_length_is_min_witness :
  capacity_ok 6 []
  /\ 0 < numel []
  /\ recognised int64_head_nonnull nonzero_items
  /\ Forall (fun b => batch_ok [] (num_rows b) b) documented
  /\ incl (offered_items documented) nonzero_items
  /\ Z.of_nat (length (offered documented)) < 9223372036854775808
  /\ documented
     = [vector [1; 2; 3; 4]; vector [5; 6; 7]] ++ [vector [8; 9; 10; 11]]
  /\ window_length
       (final (collect_all6 [vector [1; 2; 3; 4]; vector [5; 6; 7]] blank))
     = Z.min 6 7.
Proof.
  assert (Hpos : 0 < numel []) by (cbn; lia).
  assert (Htot : Z.of_nat (length (offered documented)) < 9223372036854775808)
    by (vm_compute; reflexivity).
  repeat (split; [first [ exact capacity_six | exact Hpos
                        | exact nonzero_recognised | exact documented_ok
                        | exact documented_nonzero | exact Htot
                        | reflexivity ]|]).
  exact (proj1 (window_length_is_min int64_head_nonnull zeroed 6 []
                  capacity_six Hpos nonzero_items nonzero_recognised documented
                  documented_ok documented_nonzero Htot 0 (Some 0)
                  [vector [1; 2; 3; 4]; vector [5; 6; 7]]
                  [vector [8; 9; 10; 11]] eq_refl)).
Defined.

(** C2 on the code, for rows without items: the buffer is full after a batch of six
    rows, and has one row after the next batch, of one row. *)
Lemma full_window_shrinks :
  let len := fun l => window_length (final (collect_all6 l blank)) in
  len [hollow 6] = 6
  /\ len [hollow 6; hollow 1] <> 6
  /\ len [hollow 6; hollow 1]
     <> Z.min 6 (Z.of_nat (length (offered [hollow 6; hollow 1]))).
Proof. vm_compute. repeat split; discriminate. Qed.

Lemma cursor_when_full_witness :
  capacity_ok 6 []
  /\ 0 < numel []
  /\ recognised int64_head_nonnull nonzero_items
  /\ Forall (fun b => batch_ok [] (num_rows b) b) oversized_first
  /\ incl (offered_items oversized_first) nonzero_items
  /\ Z.of_nat (length (offered oversized_first)) < 9223372036854775808
  /\ window_length (final (collect_all6 oversized_first blank)) = 6
  /\ cursor (final (collect_all6 oversized_first blank)) = 2.
Proof.
  assert (Hpos : 0 < numel []) by (cbn; lia).
  assert (Htot : Z.of_nat (length (offered oversized_first)) < 9223372036854775808)
    by (vm_compute; reflexivity).
  assert (Hfull : window_length (final (collect_all6 oversized_first blank)) = 6)
    by reflexivity.
  repeat (split; [first [ exact capacity_six | exact Hpos
                        | exact nonzero_recognised | exact oversized_first_ok
                        | exact oversized_first_nonzero | exact Htot
                        | exact Hfull ]|]).
  exact (cursor_when_full int64_head_nonnull zeroed 6 [] capacity_six Hpos
           nonzero_items nonzero_recognised oversized_first oversized_first_ok
           oversized_first_nonzero Htot 0 (Some 0) Hfull).
Defined.

(** C3 fails after a batch of more rows than the capacity: eleven rows were
    offered, the buffer is full, and the cursor is [0], not [11 mod 6]. *)
Lemma cursor_after_oversized_batch :
  let batches := [vector [1; 2; 3; 4; 5; 6; 7; 8; 9; 10; 11]] in
  let r := collect_all6 batches blank in
  window_length (final r) = 6
  /\ cursor (final r) <> Z.of_nat (length (offered batches)) mod 6.
Proof. vm_compute. split; [reflexivity | discriminate]. Qed.

Lemma visited_counts_offered_witness :
  capacity_ok 6 []
  /\ 0 < numel []
  /\ recognised int64_head_nonnull nonzero_items
  /\ Forall (fun b => batch_ok [] (num_rows b) b) documented
  /\ incl (offered_items documented) nonzero_items
  /\ Z.of_nat (length (offered documented)) < 9223372036854775808
  /\ documented
     = [vector [1; 2; 3; 4]; vector [5; 6; 7]] ++ [vector [8; 9; 10; 11]]
  /\ [vector [1; 2; 3; 4]; vector [5; 6; 7]] <> []
  /\ Some 0 <> None
  /\ visited
       (final (collect_all6 [vector [1; 2; 3; 4]; vector [5; 6; 7]] blank))
     = Some 7.
Proof.
  assert (Hpos : 0 < numel []) by (cbn; lia).
  assert (Htot : Z.of_nat (length (offered documented)) < 9223372036854775808)
    by (vm_compute; reflexivity).
  assert (Hp : [vector [1; 2; 3; 4]; vector [5; 6; 7]] <> []) by discriminate.
  assert (Hv : Some 0 <> @None Z) by discriminate.
  repeat (split; [first [ exact capacity_six | exact Hpos
                        | exact nonzero_recognised | exact documented_ok
                        | exact documented_nonzero | exact Htot
                        | exact Hp | exact Hv | reflexivity ]|]).
  exact (proj1 (visited_counts_offered int64_head_nonnull zeroed 6 []
                  capacity_six Hpos nonzero_items nonzero_recognised documented
                  documented_ok documented_nonzero Htot 0 (Some 0)
                  [vector [1; 2; 3; 4]; vector [5; 6; 7]]
                  [vector [8; 9; 10; 11]] eq_refl Hp Hv)).
Defined.

(** C6 on the code, for rows without items: the count is four after a batch of four
    rows and one after the next batch, of one row; five rows were offered. *)
Lemma visited_count_restarts :
  let count := fun l => visited (final (collect_all6 l blank)) in
  count [hollow 4] = Some 4
  /\ count [hollow 4; hollow 1] = Some 1
  /\ count [hollow 4; hollow 1]
     <> Some (Z.of_nat (length (offered [hollow 4; hollow 1]))).
Proof. vm_compute. repeat split; discriminate. Qed.

Lemma circular_insertion_witness :
  capacity_ok 6 []
  /\ state_ok int64_head_nonnull 6 [] after_first
  /\ batch_ok [] 3 (vector [5; 6; 7])
  /\ prior_visited int64_head_nonnull after_first + Z.of_nat 3
     < 9223372036854775808
  /\ (0 < 3)%nat
  /\ Z.of_nat 3 <= 6
  /\ issued (collect6 (vector [5; 6; 7]) after_first)
     = [CopyItems 2 0 4; CopyItems 1 2 0; StoreNext 1]
  /\ cursor (final (collect6 (vector [5; 6; 7]) after_first)) = 1.
Proof.
  assert (Hb : batch_ok [] 3 (vector [5; 6; 7])) by (apply vector_ok; cbn; lia).
  assert (Hv : prior_visited int64_head_nonnull after_first + Z.of_nat 3
               < 9223372036854775808) by (vm_compute; reflexivity).
  assert (Hk : (0 < 3)%nat) by lia.
  assert (HkN : Z.of_nat 3 <= 6) by lia.
  repeat (split; [first [ exact capacity_six | exact after_first_ok | exact Hb
                        | exact Hv | exact Hk | exact HkN ]|]).
  destruct (circular_insertion int64_head_nonnull zeroed 6 [] capacity_six
              after_first (vector [5; 6; 7]) 3 after_first_ok Hb Hv Hk HkN)
    as (grown & _ & _ & _ & Hissued & _ & Hcursor).
  split; [exact Hissued | exact Hcursor].
Defined.

(** C5 on the code, for rows without items: the buffer of the second call does not
    pass for initialised, so that the call starts from [0] and not from the
    cursor that the first call left, [4]; it leaves the cursor at [1], not
    at [(4 + 1) mod 6]. *)
Lemma hollow_window_restarts_cursor :
  let before := final (collect6 (hollow 4) blank) in
  let r := collect6 (hollow 1) before in
  cursor before = 4
  /\ result r = Returned true
  /\ issued r = [StoreNext 0; CopyItems 0 0 0; CopyItems 0 0 0; StoreNext 1]
  /\ cursor (final r) = 1
  /\ cursor (final r) <> (cursor before + 1) mod 6.
Proof. vm_compute. repeat split; discriminate. Qed.

Lemma copies_stay_in_window_witness :
  capacity_ok 6 []
  /\ state_ok int64_head_nonnull 6 [] after_first
  /\ batch_ok [] 3 (vector [5; 6; 7])
  /\ prior_visited int64_head_nonnull after_first + Z.of_nat 3
     < 9223372036854775808
  /\ (0 < 3)%nat
  /\ result (collect6 (vector [5; 6; 7]) after_first) = Returned true
  /\ (forall n src dst,
        In (CopyItems n src dst) (issued (collect6 (vector [5; 6; 7]) after_first)) ->
        exists slot count : nat,
          dst = Z.of_nat slot * 1 /\ n = Z.of_nat count * 1
          /\ Z.of_nat (slot + count) <= 6).
Proof.
  assert (Hb : batch_ok [] 3 (vector [5; 6; 7])) by (apply vector_ok; cbn; lia).
  assert (Hv : prior_visited int64_head_nonnull after_first + Z.of_nat 3
               < 9223372036854775808) by (vm_compute; reflexivity).
  assert (Hk : (0 < 3)%nat) by lia.
  repeat (split; [first [ exact capacity_six | exact after_first_ok | exact Hb
                        | exact Hv | exact Hk ]|]).
  destruct (copies_stay_in_window int64_head_nonnull zeroed 6 [] capacity_six
              after_first (vector [5; 6; 7]) 3 after_first_ok Hb Hv Hk)
    as (Hres & Hin & _).
  split; [exact Hres | exact Hin].
Defined.

(** C9 fails when the cursor is only below the length of the buffer after
    its growth, which is all that the call checks: with two rows in the
    buffer, the cursor at [3] and a batch of two rows, the buffer is grown to
    four rows and the first copy goes to the slots [3] and [4]. *)
Lemma stale_cursor_copy_leaves_window :
  let r := collect6 (vector [8; 9]) stale_cursor in
  window_length (final r) = 4
  /\ cursor stale_cursor < window_length (final r)
  /\ issued r = [CopyItems 2 0 3]
  /\ ~ 3 + 2 <= window_length (final r)
  /\ result r = MemoryFault.
Proof.
  cbv zeta.
  assert (Hlen : window_length (final (collect6 (vector [8; 9]) stale_cursor)) = 4)
    by reflexivity.
  rewrite Hlen. repeat split; try reflexivity. lia.
Qed.

Lemma empty_batch_witness :
  capacity_ok 6 []
  /\ state_ok int64_head_nonnull 6 [] after_first
  /\ batch_ok [] 0 (vector [])
  /\ prior_visited int64_head_nonnull after_first + Z.of_nat 0
     < 9223372036854775808
  /\ initialized int64_head_nonnull after_first = true
  /\ collect6 (vector []) after_first = mkRun (Returned true) after_first [].
Proof.
  assert (Hb : batch_ok [] 0 (vector [])) by (apply vector_ok; cbn; lia).
  assert (Hv : prior_visited int64_head_nonnull after_first + Z.of_nat 0
               < 9223372036854775808) by (vm_compute; reflexivity).
  assert (Hi : initialized int64_head_nonnull after_first = true) by reflexivity.
  repeat (split; [first [ exact capacity_six | exact after_first_ok | exact Hb
                        | exact Hv | exact Hi ]|]).
  destruct (empty_batch int64_head_nonnull zeroed 6 [] capacity_six
              after_first (vector []) 0 after_first_ok Hb Hv) as (Hempty & _).
  destruct (Hempty eq_refl) as (Hres & Hissued & _ & Hsame & _).
  specialize (Hsame Hi). fold collect6 in Hres, Hissued, Hsame.
  destruct (collect6 (vector []) after_first) as [o s l]. cbn in *.
  now subst.
Defined.

(** C7 on the code, for rows without items: the call with the empty batch is the
    second call, the buffer has four rows and the count is four before it,
    and after it the buffer has no row and the count is zero. *)
Lemma hollow_window_reset_by_empty_call :
  let before := final (collect6 (hollow 4) blank) in
  let r := collect6 (hollow 0) before in
  result r = Returned true
  /\ window_length before = 4
  /\ visited before = Some 4
  /\ window_length (final r) <> window_length before
  /\ visited (final r) <> visited before.
Proof. vm_compute. repeat split; discriminate. Qed.



(** A full buffer is not grown: the check of the cursor against its length
    throws with the count increased and the buffer as it was. *)
Example cursor_check_on_full_window :
  collect6 (vector [7]) full_with_stale_cursor
  = mkRun (Thrown EnforceNextRange)
      (mkBlobs (vector [1; 2; 3; 4; 5; 6]) (mkScalar [] 6)
               (Some (mkScalar [1] 7)))
      [].
Proof. reflexivity. Qed.

(** ** A buffer whose first item is zero

    The test [output_initialized] reads the leading machine word of the
    buffer as a pointer and takes a null one for a buffer that was never
    written.  Rows of [int64_t] whose first item is zero are stored all the
    same, and the next call starts over: it resets the count and the cursor
    and resizes the buffer to no row before it stores its batch. *)

(** C1 on the code: after the batches [[0; a; b; c]] and [[x; y; z]] the
    buffer of capacity six holds the three rows of the second batch, where
    the last six rows offered are [a; b; c; x; y; z]. *)
Theorem window_forgets_zero_headed_rows (a b c x y z : Z) :
  let batches := [vector [0; a; b; c]; vector [x; y; z]] in
  let r := collect_all6 batches blank in
  result r = Returned true
  /\ offered batches = [[0]; [a]; [b]; [c]; [x]; [y]; [z]]
  /\ window (final r) = [[x]; [y]; [z]]
  /\ ~ Permutation (window (final r))
         (lastn (Nat.min 6 (length (offered batches))) (offered batches)).
Proof.
  cbv zeta.
  assert (Hw : window (final (collect_all6 [vector [0; a; b; c];
                                            vector [x; y; z]] blank))
               = [[x]; [y]; [z]]) by reflexivity.
  rewrite Hw. repeat split.
  intros H. apply Permutation_length in H. discriminate H.
Qed.

(** C2 on the code: the buffer of capacity six is full after the batch
    [[0; a; b; c; d; e]], and has one row after the next batch, [[x]]. *)
Theorem full_window_restarts (a b c d e x : Z) :
  let len := fun l => window_length (final (collect_all6 l blank)) in
  len [vector [0; a; b; c; d; e]] = 6
  /\ len [vector [0; a; b; c; d; e]; vector [x]] = 1.
Proof. split; reflexivity. Qed.

(** C5 on the code: the batch [[0; a; b; c]] leaves four rows and the cursor
    at [4]; the call with the batch [[x; y; z]] does not start from that
    cursor but from [0]: it copies the three rows to the slots [0] to [2]
    of a buffer of three rows and leaves the cursor at [3], where the
    claim has two rows copied to the slots [4] and [5], one to the slot [0],
    and the cursor at [1]. *)
Theorem stored_cursor_is_ignored (a b c x y z : Z) :
  let st := final (collect6 (vector [0; a; b; c]) blank) in
  let r := collect6 (vector [x; y; z]) st in
  window st = [[0]; [a]; [b]; [c]]
  /\ cursor st = 4
  /\ result r = Returned true
  /\ issued r = [StoreNext 0; CopyItems 3 0 0; CopyItems 0 3 0; StoreNext 3]
  /\ window (final r) = [[x]; [y]; [z]]
  /\ cursor (final r) = 3.
Proof. repeat split. Qed.

(** C6 on the code: the count is four after the batch [[0; a; b; c]] and
    three after the next batch, [[x; y; z]], where seven rows were
    offered. *)
Theorem visited_count_forgets (a b c x y z : Z) :
  let count := fun l => visited (final (collect_all6 l blank)) in
  count [vector [0; a; b; c]] = Some 4
  /\ count [vector [0; a; b; c]; vector [x; y; z]] = Some 3.
Proof. split; reflexivity. Qed.

(** C7 on the code: after the batch [[0; a; b; c]] the buffer has four rows
    and the count is four; a call with a batch without rows leaves the
    cursor at [4], but no row in the buffer and the count at zero. *)
Theorem empty_batch_wipes_zero_headed_window (a b c : Z) :
  let before := final (collect6 (vector [0; a; b; c]) blank) in
  let r := collect6 (vector []) before in
  window before = [[0]; [a]; [b]; [c]]
  /\ cursor before = 4
  /\ visited before = Some 4
  /\ result r = Returned true
  /\ window (final r) = []
  /\ window_length (final r) = 0
  /\ cursor (final r) = 4
  /\ visited (final r) = Some 0.
Proof. repeat split. Qed.

(** ** A batch of [2^32 + 1] rows

    [std::min<int32_t>(num_entries, numToCollect_)] converts the number of
    rows to [int32_t] before it takes the minimum. *)

Lemma huge_batch_run (its : list Z) :
  collect6 (mkTensor [4294967297] its) blank
  = emit [StoreNext 0; CopyItems 1 4294967291 0]
      match copy_items 1 its 4294967291 [0] 0 with
      | Some data =>
          mkRun (Returned true)
            (mkBlobs (mkTensor [1] data) (mkScalar [] 0)
                     (Some (mkScalar [1] 4294967297)))
            [StoreNext 0]
      | None =>
          mkRun MemoryFault
            (mkBlobs (mkTensor [1] [0]) (mkScalar [] 0)
                     (Some (mkScalar [1] 4294967297)))
            []
      end.
Proof.
  unfold collect6, collect, blank. rewrite bind_gets. cbv beta zeta.
  repeat (first [ rewrite bind_bind | rewrite bind_gets | rewrite bind_ret
                | rewrite bind_enforce | rewrite bind_when
                | rewrite bind_with_output | rewrite bind_store_next
                | rewrite bind_store_visited | rewrite bind_load_visited
                | decide_if ];
          cbv beta;
          cbn [fresh LAST_N NEXT NUM_VISITED option_map s_sizes s_value]).
  rewrite bind_CopyItemsSameDevice.
  cbn [LAST_N NEXT NUM_VISITED items sizes].
  repeat match goal with
         | |- context [to_size_t ?x] =>
             let v := eval vm_compute in (to_size_t x) in
             change (to_size_t x) with v
         | |- context [ExtendTo ?u ?n ?t] =>
             let v := eval vm_compute in (ExtendTo u n t) in
             change (ExtendTo u n t) with v
         end.
  cbn [LAST_N NEXT NUM_VISITED items sizes].
  rewrite emit_emit. cbn [app].
  destruct (copy_items 1 its 4294967291 [0] 0); [|reflexivity].
  rewrite bind_store_next. reflexivity.
Qed.

(** C4 on the code, for a batch of [2^32 + 1] rows of one item and a
    capacity of six: [num_to_copy] is [1], the row count modulo [2^32]; the
    buffer is grown to one row and one row is copied to slot [0], the sixth
    row from the end of the batch, where the claim has the last six rows in
    the slots [0] to [5]. *)
Theorem huge_batch_keeps_one_row (x : Z) :
  let input := mkTensor [4294967297] (repeat x (Z.to_nat 4294967297)) in
  let r := collect6 input blank in
  result r = Returned true
  /\ issued r = [StoreNext 0; CopyItems 1 4294967291 0; StoreNext 0]
  /\ window_length (final r) = 1
  /\ cursor (final r) = 0.
Proof.
  cbv zeta. rewrite huge_batch_run.
  assert (Hcopy : exists data,
             copy_items 1 (repeat x (Z.to_nat 4294967297)) 4294967291 [0] 0
             = Some data).
  { unfold copy_items. rewrite repeat_length, Z2Nat.id by lia.
    eexists. reflexivity. }
  destruct Hcopy as (data & ->). repeat split.
Qed.

(** ** More runs with a capacity of six *)

Lemma blank_ok : state_ok int64_head_nonnull 6 [] blank.
Proof.
  unfold state_ok. cbn. repeat split; try reflexivity. discriminate.
Defined.

Lemma documented_regrouped_ok :
  Forall (fun b => batch_ok [] (num_rows b) b) documented_regrouped.
Proof. repeat constructor; apply vector_ok; cbn; lia. Defined.

Lemma first_batch_ok :
  Forall (fun b => batch_ok [] (num_rows b) b) [vector [1; 2; 3; 4]].
Proof. repeat constructor; apply vector_ok; cbn; lia. Defined.

Lemma first_batch_nonzero :
  incl (offered_items [vector [1; 2; 3; 4]]) nonzero_items.
Proof. cbn. unfold nonzero_items. intros x Hx. cbn in *. tauto. Defined.

Lemma next_batches_ok :
  Forall (fun b => batch_ok [] (num_rows b) b)
         [vector [5; 6; 7]; vector [8; 9; 10; 11]].
Proof. repeat constructor; apply vector_ok; cbn; lia. Defined.

Lemma at_most_six (l : list (Tensor Z)) :
  forallb (fun b => dim b 0 <=? 6) l = true ->
  Forall (fun b => dim b 0 <= 6) l.
Proof.
  intros H. apply Forall_forall. intros b Hb. apply Z.leb_le.
  rewrite forallb_forall in H. now apply H.
Defined.

Lemma window_unrolls_in_arrival_order_witness :
  capacity_ok 6 []
  /\ 0 < numel []
  /\ recognised int64_head_nonnull nonzero_items
  /\ Forall (fun b => batch_ok [] (num_rows b) b) documented
  /\ incl (offered_items documented) nonzero_items
  /\ Z.of_nat (length (offered documented)) < 9223372036854775808
  /\ skipn (Z.to_nat (cursor (final (collect_all6 documented blank))))
           (window (final (collect_all6 documented blank)))
     ++ firstn (Z.to_nat (cursor (final (collect_all6 documented blank))))
               (window (final (collect_all6 documented blank)))
     = [[6]; [7]; [8]; [9]; [10]; [11]].
Proof.
  assert (Hpos : 0 < numel []) by (cbn; lia).
  assert (Htot : Z.of_nat (length (offered documented)) < 9223372036854775808)
    by (vm_compute; reflexivity).
  repeat match goal with |- _ /\ _ => split; [first [ exact capacity_six | exact Hpos
                        | exact nonzero_recognised | exact documented_ok
                        | exact documented_nonzero | exact Htot ]|] end.
  exact (window_unrolls_in_arrival_order int64_head_nonnull zeroed 6 []
           capacity_six Hpos nonzero_items nonzero_recognised documented
           documented_ok documented_nonzero Htot 0 (Some 0)).
Defined.

Lemma cursor_is_fill_level_until_full_witness :
  capacity_ok 6 []
  /\ 0 < numel []
  /\ recognised int64_head_nonnull nonzero_items
  /\ Forall (fun b => batch_ok [] (num_rows b) b) [vector [1; 2; 3; 4]]
  /\ incl (offered_items [vector [1; 2; 3; 4]]) nonzero_items
  /\ Z.of_nat (length (offered [vector [1; 2; 3; 4]])) < 9223372036854775808
  /\ offered [vector [1; 2; 3; 4]] <> []
  /\ 0 <= cursor (final (collect_all6 [vector [1; 2; 3; 4]] blank)) < 6
  /\ cursor (final (collect_all6 [vector [1; 2; 3; 4]] blank))
     <= window_length (final (collect_all6 [vector [1; 2; 3; 4]] blank)).
Proof.
  assert (Hpos : 0 < numel []) by (cbn; lia).
  assert (Htot : Z.of_nat (length (offered [vector [1; 2; 3; 4]]))
                 < 9223372036854775808) by (vm_compute; reflexivity).
  assert (Hne : offered [vector [1; 2; 3; 4]] <> []) by discriminate.
  repeat match goal with |- _ /\ _ => split; [first [ exact capacity_six | exact Hpos
                        | exact nonzero_recognised | exact first_batch_ok
                        | exact first_batch_nonzero | exact Htot
                        | exact Hne ]|] end.
  destruct (cursor_is_fill_level_until_full int64_head_nonnull zeroed 6 []
              capacity_six Hpos nonzero_items nonzero_recognised
              [vector [1; 2; 3; 4]] first_batch_ok first_batch_nonzero Htot
              0 (Some 0) Hne) as (Hrange & Hle & _).
  split; [exact Hrange | exact Hle].
Defined.

Lemma initial_garbage_is_immaterial_witness :
  capacity_ok 6 []
  /\ 0 < numel []
  /\ recognised int64_head_nonnull nonzero_items
  /\ Forall (fun b => batch_ok [] (num_rows b) b) documented
  /\ incl (offered_items documented) nonzero_items
  /\ Z.of_nat (length (offered documented)) < 9223372036854775808
  /\ offered documented <> []
  /\ (Some 0 = None <-> Some 9 = @None Z)
  /\ LAST_N (final (collect_all int64_head_nonnull zeroed 6 documented
                      (fresh 0 (Some 0))))
     = LAST_N (final (collect_all int64_head_nonnull sevens 6 documented
                        (fresh 3 (Some 9)))).
Proof.
  assert (Hpos : 0 < numel []) by (cbn; lia).
  assert (Htot : Z.of_nat (length (offered documented)) < 9223372036854775808)
    by (vm_compute; reflexivity).
  assert (Hne : offered documented <> []) by discriminate.
  assert (Hv : Some 0 = None <-> Some 9 = @None Z) by (split; discriminate).
  repeat match goal with |- _ /\ _ => split; [first [ exact capacity_six | exact Hpos
                        | exact nonzero_recognised | exact documented_ok
                        | exact documented_nonzero | exact Htot
                        | exact Hne | exact Hv ]|] end.
  exact (proj1 (initial_garbage_is_immaterial int64_head_nonnull 6 []
                  capacity_six Hpos nonzero_items nonzero_recognised
                  zeroed sevens documented 0 3 (Some 0) (Some 9)
                  documented_ok documented_nonzero Htot Hne Hv)).
Defined.

Lemma batching_is_immaterial_witness :
  capacity_ok 6 []
  /\ 0 < numel []
  /\ recognised int64_head_nonnull nonzero_items
  /\ Forall (fun b => batch_ok [] (num_rows b) b) documented
  /\ Forall (fun b => batch_ok [] (num_rows b) b) documented_regrouped
  /\ Forall (fun b => dim b 0 <= 6) documented
  /\ Forall (fun b => dim b 0 <= 6) documented_regrouped
  /\ offered documented = offered documented_regrouped
  /\ offered documented <> []
  /\ incl (offered_items documented) nonzero_items
  /\ Z.of_nat (length (offered documented)) < 9223372036854775808
  /\ LAST_N (final (collect_all int64_head_nonnull zeroed 6 documented
                      (fresh 0 (Some 0))))
     = LAST_N (final (collect_all int64_head_nonnull zeroed 6
                        documented_regrouped (fresh 0 (Some 0)))).
Proof.
  assert (Hpos : 0 < numel []) by (cbn; lia).
  assert (Htot : Z.of_nat (length (offered documented)) < 9223372036854775808)
    by (vm_compute; reflexivity).
  assert (Hne : offered documented <> []) by discriminate.
  assert (Hsame : offered documented = offered documented_regrouped)
    by reflexivity.
  assert (Hle : Forall (fun b => dim b 0 <= 6) documented)
    by (apply at_most_six; reflexivity).
  assert (Hle' : Forall (fun b => dim b 0 <= 6) documented_regrouped)
    by (apply at_most_six; reflexivity).
  repeat match goal with |- _ /\ _ => split; [first [ exact capacity_six | exact Hpos
                        | exact nonzero_recognised | exact documented_ok
                        | exact documented_regrouped_ok | exact Hle
                        | exact Hle' | exact Hsame | exact Hne
                        | exact documented_nonzero | exact Htot ]|] end.
  exact (proj1 (batching_is_immaterial int64_head_nonnull 6 []
                  capacity_six Hpos nonzero_items nonzero_recognised
                  zeroed documented documented_regrouped 0 (Some 0)
                  documented_ok documented_regrouped_ok Hle Hle' Hsame Hne
                  documented_nonzero Htot)).
Defined.

Lemma data_model_is_kept_witness :
  capacity_ok 6 []
  /\ state_ok int64_head_nonnull 6 [] after_first
  /\ Forall (fun b => batch_ok [] (num_rows b) b)
            [vector [5; 6; 7]; vector [8; 9; 10; 11]]
  /\ prior_visited int64_head_nonnull after_first
     + Z.of_nat (length (offered [vector [5; 6; 7]; vector [8; 9; 10; 11]]))
     < 9223372036854775808
  /\ result (collect_all int64_head_nonnull zeroed 6
               [vector [5; 6; 7]; vector [8; 9; 10; 11]] after_first)
     = Returned true
  /\ state_ok int64_head_nonnull 6 []
       (final (collect_all int64_head_nonnull zeroed 6
                 [vector [5; 6; 7]; vector [8; 9; 10; 11]] after_first)).
Proof.
  assert (Hv : prior_visited int64_head_nonnull after_first
               + Z.of_nat (length (offered [vector [5; 6; 7];
                                            vector [8; 9; 10; 11]]))
               < 9223372036854775808) by (vm_compute; reflexivity).
  repeat match goal with |- _ /\ _ => split; [first [ exact capacity_six | exact after_first_ok
                        | exact next_batches_ok | exact Hv ]|] end.
  exact (data_model_is_kept int64_head_nonnull zeroed 6 [] capacity_six
           [vector [5; 6; 7]; vector [8; 9; 10; 11]] after_first
           after_first_ok next_batches_ok Hv).
Defined.

Lemma copies_read_inside_batch_witness :
  capacity_ok 6 []
  /\ state_ok int64_head_nonnull 6 [] after_first
  /\ batch_ok [] 3 (vector [5; 6; 7])
  /\ prior_visited int64_head_nonnull after_first + Z.of_nat 3
     < 9223372036854775808
  /\ (0 < 3)%nat
  /\ (forall n src dst,
        In (CopyItems n src dst)
           (issued (collect int64_head_nonnull zeroed 6 (vector [5; 6; 7])
                      after_first)) ->
        exists first count : nat,
          src = Z.of_nat first * numel [] /\ n = Z.of_nat count * numel []
          /\ (first + count <= 3)%nat).
Proof.
  assert (Hb : batch_ok [] 3 (vector [5; 6; 7])) by (apply vector_ok; cbn; lia).
  assert (Hv : prior_visited int64_head_nonnull after_first + Z.of_nat 3
               < 9223372036854775808) by (vm_compute; reflexivity).
  assert (Hk : (0 < 3)%nat) by lia.
  repeat match goal with |- _ /\ _ => split; [first [ exact capacity_six | exact after_first_ok | exact Hb
                        | exact Hv | exact Hk ]|] end.
  exact (copies_read_inside_batch int64_head_nonnull zeroed 6 [] capacity_six
           after_first (vector [5; 6; 7]) 3 after_first_ok Hb Hv Hk).
Defined.

Lemma oversized_batch_overwrites_witness :
  capacity_ok 6 []
  /\ state_ok int64_head_nonnull 6 [] blank
  /\ batch_ok [] 11 (vector [1; 2; 3; 4; 5; 6; 7; 8; 9; 10; 11])
  /\ prior_visited int64_head_nonnull blank + Z.of_nat 11
     < 9223372036854775808
  /\ 6 < Z.of_nat 11
  /\ window (final (collect int64_head_nonnull zeroed 6
                      (vector [1; 2; 3; 4; 5; 6; 7; 8; 9; 10; 11]) blank))
     = [[6]; [7]; [8]; [9]; [10]; [11]]
  /\ cursor (final (collect int64_head_nonnull zeroed 6
                      (vector [1; 2; 3; 4; 5; 6; 7; 8; 9; 10; 11]) blank))
     = 0.
Proof.
  assert (Hb : batch_ok [] 11 (vector [1; 2; 3; 4; 5; 6; 7; 8; 9; 10; 11]))
    by (apply vector_ok; cbn; lia).
  assert (Hv : prior_visited int64_head_nonnull blank + Z.of_nat 11
               < 9223372036854775808) by (vm_compute; reflexivity).
  assert (Hk : 6 < Z.of_nat 11) by (cbn; lia).
  repeat match goal with |- _ /\ _ => split; [first [ exact capacity_six | exact blank_ok | exact Hb
                        | exact Hv | exact Hk ]|] end.
  destruct (oversized_batch_overwrites int64_head_nonnull zeroed 6 []
              capacity_six blank (vector [1; 2; 3; 4; 5; 6; 7; 8; 9; 10; 11])
              11 blank_ok Hb Hv Hk) as (_ & _ & Hw & _ & Hc).
  split; [exact Hw | exact Hc].
Defined.

Lemma batch_rows_land_in_ring_slots_witness :
  capacity_ok 6 []
  /\ state_ok int64_head_nonnull 6 [] after_first
  /\ batch_ok [] 3 (vector [5; 6; 7])
  /\ prior_visited int64_head_nonnull after_first + Z.of_nat 3
     < 9223372036854775808
  /\ (0 < 3)%nat
  /\ Z.of_nat 3 <= 6
  /\ (2 < 3)%nat
  /\ nth_error
       (window (final (collect int64_head_nonnull zeroed 6 (vector [5; 6; 7])
                         after_first)))
       (Z.to_nat ((prior_cursor int64_head_nonnull after_first + Z.of_nat 2)
                  mod 6))
     = Some [7].
Proof.
  assert (Hb : batch_ok [] 3 (vector [5; 6; 7])) by (apply vector_ok; cbn; lia).
  assert (Hv : prior_visited int64_head_nonnull after_first + Z.of_nat 3
               < 9223372036854775808) by (vm_compute; reflexivity).
  assert (Hk : (0 < 3)%nat) by lia.
  assert (HkN : Z.of_nat 3 <= 6) by (cbn; lia).
  assert (Hj : (2 < 3)%nat) by lia.
  repeat match goal with |- _ /\ _ => split; [first [ exact capacity_six | exact after_first_ok | exact Hb
                        | exact Hv | exact Hk | exact HkN | exact Hj ]|] end.
  exact (batch_rows_land_in_ring_slots int64_head_nonnull zeroed 6 []
           capacity_six after_first (vector [5; 6; 7]) 3 after_first_ok Hb Hv
           Hk HkN 2%nat Hj).
Defined.

Lemma other_slots_keep_their_rows_witness :
  capacity_ok 6 []
  /\ state_ok int64_head_nonnull 6 [] after_first
  /\ batch_ok [] 3 (vector [5; 6; 7])
  /\ prior_visited int64_head_nonnull after_first + Z.of_nat 3
     < 9223372036854775808
  /\ (0 < 3)%nat
  /\ Z.of_nat 3 <= 6
  /\ (1 < length (prior_window int64_head_nonnull after_first))%nat
  /\ (forall j, (j < 3)%nat ->
        Z.of_nat 1
        <> (prior_cursor int64_head_nonnull after_first + Z.of_nat j) mod 6)
  /\ nth_error
       (window (final (collect int64_head_nonnull zeroed 6 (vector [5; 6; 7])
                         after_first))) 1
     = Some [2].
Proof.
  assert (Hb : batch_ok [] 3 (vector [5; 6; 7])) by (apply vector_ok; cbn; lia).
  assert (Hv : prior_visited int64_head_nonnull after_first + Z.of_nat 3
               < 9223372036854775808) by (vm_compute; reflexivity).
  assert (Hk : (0 < 3)%nat) by lia.
  assert (HkN : Z.of_nat 3 <= 6) by (cbn; lia).
  assert (Hslot : (1 < length (prior_window int64_head_nonnull after_first))%nat)
    by (vm_compute; lia).
  assert (Hfree : forall j, (j < 3)%nat ->
            Z.of_nat 1
            <> (prior_cursor int64_head_nonnull after_first + Z.of_nat j) mod 6).
  { intros [|[|[|j]]] Hj; [discriminate | discriminate | discriminate | lia]. }
  repeat match goal with |- _ /\ _ => split; [first [ exact capacity_six | exact after_first_ok | exact Hb
                        | exact Hv | exact Hk | exact HkN | exact Hslot
                        | exact Hfree ]|] end.
  exact (other_slots_keep_their_rows int64_head_nonnull zeroed 6 []
           capacity_six after_first (vector [5; 6; 7]) 3 after_first_ok Hb Hv
           Hk HkN 1%nat Hslot Hfree).
Defined.

Lemma shape_mismatch_is_refused_witness :
  initialized int64_head_nonnull after_first = true
  /\ tl (sizes pairs) <> tl (sizes (LAST_N after_first))
  /\ exists e,
       collect int64_head_nonnull zeroed 6 pairs after_first
       = mkRun (Thrown e) after_first []
       /\ (e = EnforceInputRank \/ e = EnforceOutputRank
           \/ exists i, e = EnforceOutputDim i).
Proof.
  assert (Hi : initialized int64_head_nonnull after_first = true)
    by reflexivity.
  assert (Hne : tl (sizes pairs) <> tl (sizes (LAST_N after_first)))
    by discriminate.
  split; [exact Hi|]. split; [exact Hne|].
  exact (shape_mismatch_is_refused int64_head_nonnull zeroed 6 after_first
           pairs Hi Hne).
Defined.

Lemma record_shape_follows_batch_witness :
  result (collect int64_head_nonnull zeroed 6 pairs blank) = Returned true
  /\ tl (sizes (LAST_N (final (collect int64_head_nonnull zeroed 6 pairs
                                 blank))))
     = [2].
Proof.
  assert (Hres : result (collect int64_head_nonnull zeroed 6 pairs blank)
                 = Returned true) by reflexivity.
  split; [exact Hres|].
  exact (record_shape_follows_batch int64_head_nonnull zeroed 6 blank pairs
           true Hres).
Defined.

Lemma returned_call_counts_batch_witness :
  result (collect int64_head_nonnull zeroed 6 (vector [5; 6; 7]) after_first)
  = Returned true
  /\ visited (final (collect int64_head_nonnull zeroed 6 (vector [5; 6; 7])
                       after_first))
     = Some 7.
Proof.
  assert (Hres : result (collect int64_head_nonnull zeroed 6 (vector [5; 6; 7])
                           after_first) = Returned true) by reflexivity.
  split; [exact Hres|].
  exact (returned_call_counts_batch int64_head_nonnull zeroed 6 after_first
           (vector [5; 6; 7]) true Hres).
Defined.


Lemma unrecognised_buffer_is_discarded_witness :
  initialized int64_head_nonnull zero_headed = false
  /\ result (collect int64_head_nonnull zeroed 6 (vector [5; 6; 7]) zero_headed)
     = result (collect int64_head_nonnull zeroed 6 (vector [5; 6; 7])
                 (mkBlobs (mkTensor [0] []) (NEXT zero_headed)
                          (NUM_VISITED zero_headed)))
  /\ issued (collect int64_head_nonnull zeroed 6 (vector [5; 6; 7]) zero_headed)
     = issued (collect int64_head_nonnull zeroed 6 (vector [5; 6; 7])
                 (mkBlobs (mkTensor [0] []) (NEXT zero_headed)
                          (NUM_VISITED zero_headed))).
Proof.
  assert (Hi : initialized int64_head_nonnull zero_headed = false)
    by reflexivity.
  split; [exact Hi|].
  destruct (unrecognised_buffer_is_discarded int64_head_nonnull zeroed 6
              zero_headed (vector [5; 6; 7]) Hi) as (Hres & Hiss & _).
  split; [exact Hres | exact Hiss].
Defined.
